(** * Anymail base backend and base payload (anymail/backends/base.py)

    A shallow embedding of [AnymailBaseBackend] and [BasePayload], and the
    properties of the send life cycle, the batch sender, the attribute merge
    rules and the value converters.

    Python objects are values of [pyval]; exceptions are values of [exn]
    carrying their class and its ancestors; a method that mutates [self] or
    the outside world is a function from a state to an [outcome] and the
    state after it, so that what a call changed before it raised stays
    changed, as in Python. *)

From Stdlib Require Import ZArith String List Bool Lia.
From stdpp Require Import base option list strings gmap fin_maps.

Local Open Scope string_scope.
Local Open Scope Z_scope.

(** ** Python values *)

Record tzinfo := { tzname : string; utcoffset_minutes : Z }.

Record date := { year : Z; month : Z; day : Z }.

Record datetime := {
  dt_date : date;
  hour : Z; minute : Z; second : Z; microsecond : Z;
  dt_tzinfo : option tzinfo
}.

#[local] Unset Elimination Schemes.
Inductive pyval : Type :=
| UNSET                                   (* anymail.utils.UNSET, the "no value" sentinel *)
| PyNone
| PyBool (b : bool)
| PyInt (z : Z)
| PyStr (s : string)
| PyLazy (s : string)                     (* a Django lazy translation string *)
| PyList (l : list pyval)
| PyTuple (l : list pyval)
| PyDict (d : gmap string pyval)
| PyDate (d : date)
| PyDatetime (dt : datetime)
| PyObject (cls : string) (fields : list pyval).
#[local] Set Elimination Schemes.

Definition is_empty {A} (l : list A) : bool :=
  match l with [] => true | _ => false end.

(** [value is not UNSET] *)
Definition is_not_UNSET (v : pyval) : bool :=
  match v with UNSET => false | _ => true end.

(** Python truth value, as used by [not x], [x or y] and list filters. *)
Definition truthy (v : pyval) : bool :=
  match v with
  | UNSET => true
  | PyNone => false
  | PyBool b => b
  | PyInt z => negb (z =? 0)
  | PyStr s | PyLazy s => negb (String.eqb s "")
  | PyList l | PyTuple l => match l with [] => false | _ => true end
  | PyDict d => negb (is_empty (map_to_list d))
  | PyDate _ | PyDatetime _ | PyObject _ _ => true
  end.

(** ** Exceptions and outcomes *)

(** An exception instance: its class, the classes it descends from, and its
    message.  The keyword context Anymail's errors carry ([email_message],
    [payload], [response], [backend]) is not represented. *)
Record exn := {
  exc_class : string;
  exc_bases : list string;
  exc_message : string
}.

(** [isinstance(e, cls)] *)
Definition isinstance (e : exn) (cls : string) : bool :=
  String.eqb cls (exc_class e) || existsb (String.eqb cls) (exc_bases e).

Definition builtin_exception (cls : string) (bases : list string) (msg : string) : exn :=
  {| exc_class := cls; exc_bases := bases ++ ["Exception"]; exc_message := msg |}.

Definition NotImplementedError := builtin_exception "NotImplementedError" ["RuntimeError"].
Definition AttributeError := builtin_exception "AttributeError" [].
Definition TypeError := builtin_exception "TypeError" [].
Definition ValueError := builtin_exception "ValueError" [].

(** Modelled from the spec: anymail/exceptions.py is not among the sources.
    Section 7 of the specification gives the taxonomy: unsupported-feature,
    transport, parse and all-recipients-refused errors descend from one common
    root, [AnymailError]. *)
Definition AnymailError := builtin_exception "AnymailError" [].
Definition AnymailAPIError := builtin_exception "AnymailAPIError" ["AnymailError"].
Definition AnymailRecipientsRefused :=
  builtin_exception "AnymailRecipientsRefused" ["AnymailError"].
Definition AnymailUnsupportedFeature :=
  builtin_exception "AnymailUnsupportedFeature" ["AnymailError"].

Inductive outcome (A : Type) : Type :=
| Return (a : A)
| Raise (e : exn).
Arguments Return {A} a.
Arguments Raise {A} e.

(** ** A state-and-exception monad

    [M S A] is a Python statement sequence run on a mutable state [S]: it
    returns or raises, and in both cases leaves a state behind. *)
Module Monad.

Definition M (S A : Type) : Type := S -> outcome A * S.

Definition ret {S A} (a : A) : M S A := fun s => (Return a, s).

Definition raise {S A} (e : exn) : M S A := fun s => (Raise e, s).

Definition bind {S A B} (c : M S A) (k : A -> M S B) : M S B :=
  fun s => match c s with
           | (Return a, s') => k a s'
           | (Raise e, s') => (Raise e, s')
           end.

Definition get {S} : M S S := fun s => (Return s, s).

Definition put {S} (s : S) : M S unit := fun _ => (Return tt, s).

Definition modify {S} (f : S -> S) : M S unit := fun s => (Return tt, f s).

(** [try: c  except <classes matched by handles>: h] *)
Definition try_except {S A} (c : M S A) (handles : exn -> bool) (h : exn -> M S A) : M S A :=
  fun s => match c s with
           | (Return a, s') => (Return a, s')
           | (Raise e, s') => if handles e then h e s' else (Raise e, s')
           end.

(** [try: c  finally: f].  An exception raised by [f] replaces the outcome
    of [c]. *)
Definition try_finally {S A} (c : M S A) (f : M S unit) : M S A :=
  fun s => match c s with
           | (r, s') => match f s' with
                        | (Return _, s'') => (r, s'')
                        | (Raise e, s'') => (Raise e, s'')
                        end
           end.

(** Run a computation on a component of the state. *)
Definition zoom {S T A} (proj : S -> T) (inj : T -> S -> S) (c : M T A) : M S A :=
  fun s => match c (proj s) with (r, t) => (r, inj t s) end.

(** [for x in l: body x] *)
Fixpoint for_each {S A} (l : list A) (body : A -> M S unit) : M S unit :=
  match l with
  | [] => ret tt
  | x :: l' => bind (body x) (fun _ => for_each l' body)
  end.

End Monad.
Import Monad.

Declare Scope py_scope.
Delimit Scope py_scope with py.
Notation "x <~ c ;; k" := (bind c (fun x => k))
  (at level 100, c at next level, right associativity) : py_scope.
Notation "c ;;; k" := (bind c (fun _ => k))
  (at level 100, right associativity) : py_scope.
Local Open Scope py_scope.

(** ** Backend settings

    What [AnymailBaseBackend.__init__] reads from the Django settings and its
    keyword arguments, with the names of the concrete class.  [declared_esp_name]
    is [None] for a class that declares no [esp_name]. *)
Record BackendSettings := {
  class_module : string;
  class_name : string;
  fail_silently : bool;
  ignore_unsupported_features : bool;
  ignore_recipient_status : bool;
  send_defaults : gmap string pyval;
  declared_esp_name : option string
}.

Definition must_implement {S A} (module name what : string) : M S A :=
  raise (NotImplementedError (module ++ "." ++ name ++ " must " ++ what)).

(** ** Delivery status (anymail/message.py) *)

Section Anymail.

Context {W Payload Response : Type}.

Record AnymailRecipientStatus := { message_id : pyval; status : string }.

Record AnymailStatus := {
  statuses : option (gset string);   (* the [status] attribute; None until sent *)
  recipients_status : gmap string AnymailRecipientStatus;   (* [recipients] *)
  esp_response : option Response
}.

(** Modelled from the spec: anymail/message.py is not among the sources.
    Section 3: the aggregate status is "the set of distinct per-recipient
    statuses observed for a message, plus the raw provider response".  A new
    [AnymailStatus()] has seen no recipient and has no status set yet. *)
Definition AnymailStatus_new : AnymailStatus :=
  {| statuses := None; recipients_status := ∅; esp_response := None |}.

(** Modelled from the spec: [AnymailStatus.set_recipient_status], absent with
    anymail/message.py.  It records the per-recipient entries and sets the
    aggregate to the set of their distinct statuses. *)
Definition set_recipient_status (recipients : gmap string AnymailRecipientStatus)
    (self : AnymailStatus) : AnymailStatus :=
  {| statuses := Some (list_to_set (status <$> (map_to_list recipients).*2));
     recipients_status := recipients;
     esp_response := esp_response self |}.

Definition set_esp_response (response : Response) (self : AnymailStatus) : AnymailStatus :=
  {| statuses := statuses self;
     recipients_status := recipients_status self;
     esp_response := Some response |}.

(** ** The message (django.core.mail.EmailMessage, with Anymail's additions)

    [attrs] holds the attributes read with [getattr(message, attr, UNSET)];
    [anymail_status] is the one slot the backend writes. *)
Record EmailMessage := {
  attrs : gmap string pyval;
  content_subtype : string;
  encoding : pyval;
  anymail_status : option AnymailStatus
}.

Definition getattr (message : EmailMessage) (attr : string) (default : pyval) : pyval :=
  match attrs message !! attr with
  | Some value => value
  | None => default
  end.

Definition set_anymail_status (st : option AnymailStatus) (message : EmailMessage)
    : EmailMessage :=
  {| attrs := attrs message;
     content_subtype := content_subtype message;
     encoding := encoding message;
     anymail_status := st |}.

(** The elements a [for] loop or a comprehension draws from a value; [None]
    when the value is not iterable (Python raises TypeError). *)
Definition iter (v : pyval) : option (list pyval) :=
  match v with
  | PyList l | PyTuple l => Some l
  | PyDict d => Some (map (fun kv => PyStr (fst kv)) (map_to_list d))
  | PyStr s => Some (map (fun c => PyStr (String c EmptyString)) (list_ascii_of_string s))
  | _ => None
  end.

(** Django's [EmailMessage.recipients()]: the non-empty addresses of
    [to + cc + bcc].  Django keeps the three attributes lists. *)
Definition recipients (message : EmailMessage) : list pyval :=
  let address_list attr :=
    match iter (getattr message attr (PyList [])) with
    | Some l => l
    | None => []
    end in
  List.filter truthy (address_list "to" ++ address_list "cc" ++ address_list "bcc")%list.

(** ** The outside world

    [W] is whatever the provider and the application keep between calls (a
    cached connection, the provider's account, the receivers' own state).
    [log] records, in order, each call the backend makes to a collaborator. *)
Inductive event : Type :=
| call_open
| call_close
| call_pre_send_receiver (i : nat)
| call_build_message_payload
| call_post_to_esp
| call_parse_recipient_status
| call_post_send_receiver (i : nat).

Record world := { ext : W; log : list event }.

(** Call a collaborator: note the call, then let it act on [W]. *)
Definition call {A} (ev : event) (c : M W A) : M world A :=
  fun w => match c (ext w) with
           | (r, x) => (r, {| ext := x; log := log w ++ [ev] |})
           end.

(** ** Signals (anymail/signals.py, django.dispatch.Signal)

    A receiver of [pre_send] gets the message and may change it; a receiver of
    [post_send] gets the message and its status.  What a post-send receiver
    returns is a value ([inl]) or an exception instance it hands back without
    raising it ([inr]): [run_post_send] tells the two apart. *)
Definition pre_send_receiver : Type :=
  EmailMessage -> string -> W -> outcome pyval * (EmailMessage * W).
Definition post_send_receiver : Type :=
  EmailMessage -> AnymailStatus -> string -> M W (pyval + exn).

Record Signals := {
  pre_send : list pre_send_receiver;
  post_send : list post_send_receiver
}.

(** The state of one [_send]: the message object and the world. *)
Record send_state := { the_message : EmailMessage; the_world : world }.

Definition in_world {A} (c : M world A) : M send_state A :=
  zoom the_world (fun w s => {| the_message := the_message s; the_world := w |}) c.

Definition read_message : M send_state EmailMessage :=
  fun s => (Return (the_message s), s).

Definition write_message (message : EmailMessage) : M send_state unit :=
  fun s => (Return tt, {| the_message := message; the_world := the_world s |}).

(** Django's [Signal.send]: the receivers run in registration order, each
    response is kept, and the first exception a receiver raises ends the
    dispatch and propagates. *)
Fixpoint Signal_send (receivers : list pre_send_receiver) (i : nat) (esp_name : string)
    : M send_state (list (nat * pyval)) :=
  match receivers with
  | [] => ret []
  | receiver :: rest =>
      response <~ (fun s =>
        match receiver (the_message s) esp_name (ext (the_world s)) with
        | (r, (message, x)) =>
            (r, {| the_message := message;
                   the_world := {| ext := x;
                                   log := log (the_world s) ++ [call_pre_send_receiver i] |} |})
        end) ;;
      responses <~ Signal_send rest (S i) esp_name ;;
      ret ((i, response) :: responses)
  end.

(** Modelled from the spec: [post_send.send_robust], the dispatch of the
    signal declared in anymail/signals.py, as sections 6 and 7 describe the
    post-send point: the receivers are called in registration order; an error
    one raises is caught and kept as that receiver's response ("collected,
    not short-circuited"), and the dispatch goes on with the next receiver.
    As in Django's [Signal.send_robust], which the signal is an instance of,
    the errors caught are the instances of [Exception]; anything else a
    receiver raises ends the dispatch and propagates. *)
Fixpoint Signal_send_robust (receivers : list post_send_receiver) (i : nat)
    (message : EmailMessage) (st : AnymailStatus) (esp_name : string)
    : M world (list (nat * (pyval + exn))) :=
  match receivers with
  | [] => ret []
  | receiver :: rest =>
      response <~ try_except
        (call (call_post_send_receiver i) (receiver message st esp_name))
        (fun err => isinstance err "Exception")
        (fun err => ret (inr err)) ;;
      responses <~ Signal_send_robust rest (S i) message st esp_name ;;
      ret ((i, response) :: responses)
  end.

(** ** AnymailBaseBackend *)

(** A backend object: its settings, and the methods a provider's subclass
    supplies. *)
Record Backend := {
  settings :> BackendSettings;
  open : M W bool;
  close : M W unit;
  build_message_payload : EmailMessage -> gmap string pyval -> M W Payload;
  post_to_esp : Payload -> EmailMessage -> M W Response;
  parse_recipient_status :
    Response -> Payload -> EmailMessage -> M W (gmap string AnymailRecipientStatus)
}.

(** [send_defaults.copy()] updated with the provider's send defaults: these
    are laid over the general ones, key by key. *)
Definition merge_send_defaults (send_defaults : gmap string pyval)
    (esp_send_defaults : option (gmap string pyval)) : gmap string pyval :=
  match esp_send_defaults with
  | Some esp => esp ∪ send_defaults
  | None => send_defaults
  end.

(** What [__init__] is called with: the class of the object (its names, and
    the [esp_name] it declares, if any), Django's [fail_silently] keyword, and
    what [get_anymail_setting] (anymail/utils.py, not among the sources)
    finds for each setting read: the two flags, the general [SEND_DEFAULTS],
    and the [SEND_DEFAULTS] of a provider, by the provider's name. *)
Record BackendArguments := {
  of_module : string;
  of_name : string;
  of_esp_name : option string;
  kw_fail_silently : bool;
  found_ignore_unsupported_features : bool;
  found_ignore_recipient_status : bool;
  found_send_defaults : gmap string pyval;
  found_esp_send_defaults : string -> option (gmap string pyval)
}.

(** [__init__]: the attributes it leaves on the object.  The second lookup of
    the send defaults reads [self.esp_name], which raises in a class that
    declares none. *)
Definition AnymailBaseBackend_init (args : BackendArguments) : outcome BackendSettings :=
  match of_esp_name args with
  | Some esp_name =>
      Return {| class_module := of_module args;
                class_name := of_name args;
                fail_silently := kw_fail_silently args;
                ignore_unsupported_features := found_ignore_unsupported_features args;
                ignore_recipient_status := found_ignore_recipient_status args;
                send_defaults :=
                  merge_send_defaults (found_send_defaults args)
                                      (found_esp_send_defaults args esp_name);
                declared_esp_name := Some esp_name |}
  | None =>
      Raise (NotImplementedError
               (of_module args ++ "." ++ of_name args
                ++ " must declare esp_name class attr"))
  end.

(** The methods of the base class: [open] reports no new connection, [close]
    does nothing, and the three provider methods are left to subclasses. *)
Definition AnymailBaseBackend_methods (config : BackendSettings) : Backend :=
  let module := class_module config in
  let name := class_name config in
  {| settings := config;
     open := ret false;
     close := ret tt;
     build_message_payload := fun _ _ =>
       must_implement module name "implement build_message_payload";
     post_to_esp := fun _ _ =>
       must_implement module name "implement post_to_esp";
     parse_recipient_status := fun _ _ _ =>
       must_implement module name "implement parse_recipient_status" |}.

(** [AnymailBaseBackend(...)], or a subclass that adds nothing but an
    [esp_name]: the object [__init__] leaves, with the methods of the base
    class. *)
Definition AnymailBaseBackend (args : BackendArguments) : outcome Backend :=
  match AnymailBaseBackend_init args with
  | Return config => Return (AnymailBaseBackend_methods config)
  | Raise e => Raise e
  end.

Section Methods.

Variable signals : Signals.
Variable self : Backend.

Definition esp_name {S} : M S string :=
  match declared_esp_name self with
  | Some name => ret name
  | None => must_implement (class_module self) (class_name self)
                           "declare esp_name class attr"
  end.

(** [message.anymail_status], an AttributeError when the slot is empty. *)
Definition read_anymail_status : M send_state AnymailStatus :=
  message <~ read_message ;;
  match anymail_status message with
  | Some st => ret st
  | None => raise (AttributeError "anymail_status")
  end.

Definition update_anymail_status (f : AnymailStatus -> AnymailStatus) : M send_state unit :=
  st <~ read_anymail_status ;;
  message <~ read_message ;;
  write_message (set_anymail_status (Some (f st)) message).

Definition run_pre_send : M send_state bool :=
  try_except
    (name <~ esp_name ;;
     Signal_send (pre_send signals) 0 name ;;;
     ret true)
    (fun e => isinstance e "AnymailCancelSend")
    (fun _ => ret false).

(** The loop over the results: a response that is an instance of [Exception],
    whether its receiver raised it or returned it, is raised. *)
Definition raise_first_exception (results : list (nat * (pyval + exn))) : M send_state unit :=
  for_each results (fun '(receiver, response) =>
    match response with
    | inr err => if isinstance err "Exception" then raise err else ret tt
    | inl _ => ret tt
    end).

Definition run_post_send : M send_state unit :=
  message <~ read_message ;;
  st <~ read_anymail_status ;;
  name <~ esp_name ;;
  results <~ in_world (Signal_send_robust (post_send signals) 0 message st name) ;;
  raise_first_exception results.

Definition refused : gset string := {[ "invalid"; "rejected" ]}.

Definition raise_for_recipient_status {S} (anymail_status : AnymailStatus)
    (response : Response) (payload : Payload) (message : EmailMessage) : M S unit :=
  if negb (ignore_recipient_status self) then
    match statuses anymail_status with
    | Some status =>
        if bool_decide (status ⊆ refused)
        then raise (AnymailRecipientsRefused "")
        else ret tt
    | None => raise (AttributeError "'NoneType' object has no attribute 'issubset'")
    end
  else ret tt.

Definition _send : M send_state bool :=
  message <~ read_message ;;
  write_message (set_anymail_status (Some AnymailStatus_new) message) ;;;
  proceed <~ run_pre_send ;;
  if negb proceed then ret false else
  message <~ read_message ;;
  if is_empty (recipients message) then ret false else
  payload <~ in_world (call call_build_message_payload
                         (build_message_payload self message (send_defaults self))) ;;
  message <~ read_message ;;
  response <~ in_world (call call_post_to_esp (post_to_esp self payload message)) ;;
  update_anymail_status (set_esp_response response) ;;;
  message <~ read_message ;;
  recipient_status <~ in_world (call call_parse_recipient_status
                         (parse_recipient_status self response payload message)) ;;
  update_anymail_status (set_recipient_status recipient_status) ;;;
  run_post_send ;;;
  st <~ read_anymail_status ;;
  message <~ read_message ;;
  raise_for_recipient_status st response payload message ;;;
  ret true.

(** [_send] up to the parsed status (its lines before the post-send signal):
    [None] for the two early returns, the payload, the response and the
    parsed statuses otherwise.  [finalize] is the rest; [_send_stages] below
    shows that [_send] is the one after the other. *)
Definition dispatch_and_parse
    : M send_state (option (Payload * Response * gmap string AnymailRecipientStatus)) :=
  message <~ read_message ;;
  write_message (set_anymail_status (Some AnymailStatus_new) message) ;;;
  proceed <~ run_pre_send ;;
  if negb proceed then ret None else
  message <~ read_message ;;
  if is_empty (recipients message) then ret None else
  payload <~ in_world (call call_build_message_payload
                         (build_message_payload self message (send_defaults self))) ;;
  message <~ read_message ;;
  response <~ in_world (call call_post_to_esp (post_to_esp self payload message)) ;;
  update_anymail_status (set_esp_response response) ;;;
  message <~ read_message ;;
  recipient_status <~ in_world (call call_parse_recipient_status
                         (parse_recipient_status self response payload message)) ;;
  update_anymail_status (set_recipient_status recipient_status) ;;;
  ret (Some (payload, response, recipient_status)).

Definition finalize (payload : Payload) (response : Response) : M send_state bool :=
  run_post_send ;;;
  st <~ read_anymail_status ;;
  message <~ read_message ;;
  raise_for_recipient_status st response payload message ;;;
  ret true.

(** The state of one [send_messages]: the world, and the message objects as
    the loop has left them so far. *)
Record batch_state := { processed : list EmailMessage; batch_world : world }.

Definition in_batch_world {A} (c : M world A) : M batch_state A :=
  zoom batch_world (fun w s => {| processed := processed s; batch_world := w |}) c.

(** [self._send(message)] on the next message object of the batch. *)
Definition send_message (message : EmailMessage) : M batch_state bool :=
  fun s =>
    match _send {| the_message := message; the_world := batch_world s |} with
    | (r, s') => (r, {| processed := processed s ++ [the_message s'];
                        batch_world := the_world s' |})
    end.

Fixpoint for_message_in (email_messages : list EmailMessage) (num_sent : nat)
    : M batch_state nat :=
  match email_messages with
  | [] => ret num_sent
  | message :: rest =>
      sent <~ try_except (send_message message)
                (fun e => isinstance e "AnymailError")
                (fun e => if fail_silently self then ret false else raise e) ;;
      for_message_in rest (if sent : bool then S num_sent else num_sent)
  end.

Definition send_messages (email_messages : list EmailMessage) : M batch_state nat :=
  let num_sent := 0%nat in
  if is_empty email_messages then ret num_sent else
  created_session <~ in_batch_world (call call_open (open self)) ;;
  try_finally
    (for_message_in email_messages num_sent)
    (if created_session : bool then in_batch_world (call call_close (close self)) else ret tt).

End Methods.

End Anymail.

(** ** anymail/utils.py and Django, as far as the payload uses them *)

(** Modelled from the spec: [anymail.utils.last], absent from the sources.
    Section 3, the override strategy: "caller value wins if present, else
    default". *)
Definition last (default_value value : pyval) : outcome pyval :=
  Return (if is_not_UNSET value then value else default_value).

(** Modelled from the spec: [anymail.utils.combine], absent from the sources.
    Section 3, the merge strategy: "list concatenation for sequences, key
    union with caller precedence for mappings"; section 4.2: it "only fires
    when both sides are present, otherwise the present side wins".  The
    specification gives no combination of two present values that are not
    both sequences or both mappings; Python's own [+] refuses such operands
    with a TypeError. *)
Definition combine (default_value value : pyval) : outcome pyval :=
  match default_value, value with
  | UNSET, _ => Return value
  | _, UNSET => Return default_value
  | PyList d, PyList v => Return (PyList (d ++ v))
  | PyTuple d, PyTuple v => Return (PyTuple (d ++ v))
  | PyDict d, PyDict v => Return (PyDict (v ∪ d))
  | _, _ => Raise (TypeError "unsupported operand type(s) for +")
  end.

(** The helpers of anymail/utils.py, django.conf.settings and the clock
    library that the converters call; none of them is among the sources, and
    the payload code is embedded over any implementation of them. *)
Record Environment := {
  ParsedEmail : pyval -> pyval -> outcome pyval;       (* (address, encoding) *)
  Attachment : pyval -> pyval -> outcome pyval;        (* (attachment, str_encoding) *)
  force_non_lazy : pyval -> outcome pyval;
  force_non_lazy_list : pyval -> outcome pyval;
  force_non_lazy_dict : pyval -> outcome pyval;
  DEFAULT_CHARSET : pyval;
  get_current_timezone : tzinfo;
  utcfromtimestamp : pyval -> outcome datetime;        (* a naive datetime, or an error *)
  localize : datetime -> tzinfo -> option exn;         (* the zone's objection, if any *)
  str : pyval -> outcome string                        (* Python's [str(value)] *)
}.

Definition utc : tzinfo := {| tzname := "UTC"; utcoffset_minutes := 0 |}.

(** [dt.replace(tzinfo=tz)] *)
Definition replace_tzinfo (dt : datetime) (tz : option tzinfo) : datetime :=
  {| dt_date := dt_date dt;
     hour := hour dt; minute := minute dt; second := second dt;
     microsecond := microsecond dt;
     dt_tzinfo := tz |}.

(** Django's [is_naive]: a datetime without a time zone has no UTC offset. *)
Definition is_naive (dt : datetime) : bool :=
  match dt_tzinfo dt with None => true | Some _ => false end.

(** Django's [make_aware]: the naive datetime is read as local time of the
    given zone, unless the zone refuses it (a local time that a change of the
    clocks skips or repeats). *)
Definition make_aware (env : Environment) (dt : datetime) (tz : tzinfo) : outcome datetime :=
  match localize env dt tz with
  | Some e => Raise e
  | None => Return (replace_tzinfo dt (Some tz))
  end.

(** [datetime(year, month, day)]: naive, midnight. *)
Definition datetime_of_date (d : date) : datetime :=
  {| dt_date := d; hour := 0; minute := 0; second := 0; microsecond := 0;
     dt_tzinfo := None |}.

(** ** BasePayload *)

Section Payload.

Context {Response PData : Type}.
Variable env : Environment.

(** A payload object.  [data] is what the provider's subclass builds. *)
Record BasePayload := {
  message : @EmailMessage Response;
  defaults : gmap string pyval;
  backend : BackendSettings;
  payload_esp_name : option string;      (* [self.esp_name], once assigned *)
  data : PData
}.

(** The state of one [__init__]: the object under construction, and a record,
    in order, of each setter the loop has invoked with the value it passed. *)
Record construction := { self : BasePayload; setter_calls : list (string * pyval) }.

Definition method : Type := list pyval -> M BasePayload pyval.

Inductive converter : Type :=
| callable (f : pyval -> outcome pyval)
| method_named (name : string).

(** One line of the attribute tables: [(attr, combiner, converter)]. *)
Record rule := {
  attr : string;
  combiner : option (pyval -> pyval -> outcome pyval);
  convert : option converter
}.

(** A subclass of BasePayload: the methods it defines, by name, and its own
    attribute rules. *)
Record PayloadClass := {
  payload_module : string;
  payload_name : string;
  esp_message_attrs : list rule;
  blank : PData;
  defines : string -> option method
}.

Variable cls : PayloadClass.

Definition lift {S A} (r : outcome A) : M S A := fun s => (r, s).

(** [self.<name>(...)]: the subclass's method when it defines one, the base
    class's otherwise. *)
Definition resolve (name : string) (base : method) : method :=
  match defines cls name with
  | Some overriding => overriding
  | None => base
  end.

Definition abstract (what : string) : method :=
  fun _ => must_implement (payload_module cls) (payload_name cls) what.

Definition arity_error {A} : M BasePayload A :=
  raise (TypeError "wrong number of arguments").

Definition unary (body : pyval -> M BasePayload pyval) : method :=
  fun args => match args with [a] => body a | _ => arity_error end.

Definition binary (body : pyval -> pyval -> M BasePayload pyval) : method :=
  fun args => match args with [a; b] => body a b | _ => arity_error end.

(** [for x in v: body x], a TypeError when [v] is not iterable. *)
Definition for_in (v : pyval) (body : pyval -> M BasePayload pyval) : M BasePayload pyval :=
  match iter v with
  | Some l => for_each l (fun x => body x ;;; ret tt) ;;; ret PyNone
  | None => raise (TypeError "object is not iterable")
  end.

(** [[f(x) for x in v]] *)
Fixpoint map_outcome (f : pyval -> outcome pyval) (l : list pyval) : outcome (list pyval) :=
  match l with
  | [] => Return []
  | x :: l' =>
      match f x with
      | Return y => match map_outcome f l' with
                    | Return ys => Return (y :: ys)
                    | Raise e => Raise e
                    end
      | Raise e => Raise e
      end
  end.

Definition comprehension (f : pyval -> outcome pyval) (v : pyval) : M BasePayload pyval :=
  match iter v with
  | Some l => match map_outcome f l with
              | Return ys => ret (PyList ys)
              | Raise e => raise e
              end
  | None => raise (TypeError "object is not iterable")
  end.

Definition unsupported_feature (feature : string) : M BasePayload pyval :=
  self <~ get ;;
  if negb (ignore_unsupported_features (backend self)) then
    match payload_esp_name self with
    | Some esp_name => raise (AnymailUnsupportedFeature (esp_name ++ " does not support " ++ feature))
    | None => raise (AttributeError "esp_name")
    end
  else ret PyNone.

(** *** Attribute converters *)

Definition parsed_email : method :=
  resolve "parsed_email" (unary (fun address =>
    self <~ get ;;
    lift (ParsedEmail env address (encoding (message self))))).

Definition parsed_emails : method :=
  resolve "parsed_emails" (unary (fun addresses =>
    self <~ get ;;
    let encoding := encoding (message self) in
    comprehension (fun address => ParsedEmail env address encoding) addresses)).

Definition prepped_alternatives : method :=
  resolve "prepped_alternatives" (unary (fun alternatives =>
    comprehension (fun alternative =>
        match alternative with
        | PyTuple [content; mimetype] | PyList [content; mimetype] =>
            match force_non_lazy env content with
            | Return content => Return (PyTuple [content; mimetype])
            | Raise e => Raise e
            end
        | _ => Raise (ValueError "cannot unpack (content, mimetype)")
        end)
      alternatives)).

Definition prepped_attachments : method :=
  resolve "prepped_attachments" (unary (fun attachments =>
    self <~ get ;;
    let str_encoding :=
      if truthy (encoding (message self)) then encoding (message self)
      else DEFAULT_CHARSET env in
    comprehension (fun attachment => Attachment env attachment str_encoding) attachments)).

Definition aware_datetime_of (value : pyval) : outcome pyval :=
  let localized (dt : datetime) :=
    if is_naive dt then
      match make_aware env dt (get_current_timezone env) with
      | Return aware => Return (PyDatetime aware)
      | Raise e => Raise e
      end
    else Return (PyDatetime dt) in
  match value with
  | PyDatetime dt => localized dt
  | PyDate d => localized (datetime_of_date d)
  | _ =>
      match utcfromtimestamp env value with
      | Return naive => localized (replace_tzinfo naive (Some utc))
      | Raise e =>
          if isinstance e "TypeError" || isinstance e "ValueError"
          then Return value
          else Raise e
      end
  end.

Definition aware_datetime : method :=
  resolve "aware_datetime" (unary (fun value => lift (aware_datetime_of value))).

(** *** Abstract implementation *)

Definition init_payload : method := resolve "init_payload" (abstract "implement init_payload").

Definition set_from_email : method :=
  resolve "set_from_email" (abstract "implement set_from_email").

Definition add_recipient : method :=
  resolve "add_recipient"
    (abstract "implement add_recipient, set_recipients, or set_{to,cc,bcc}").

Definition set_recipients : method :=
  resolve "set_recipients" (binary (fun recipient_type emails =>
    for_in emails (fun email => add_recipient [recipient_type; email]))).

Definition set_to : method :=
  resolve "set_to" (unary (fun emails => set_recipients [PyStr "to"; emails])).

Definition set_cc : method :=
  resolve "set_cc" (unary (fun emails => set_recipients [PyStr "cc"; emails])).

Definition set_bcc : method :=
  resolve "set_bcc" (unary (fun emails => set_recipients [PyStr "bcc"; emails])).

Definition set_subject : method := resolve "set_subject" (abstract "implement set_subject").

Definition set_reply_to : method :=
  resolve "set_reply_to" (unary (fun emails => unsupported_feature "reply_to")).

Definition set_extra_headers : method :=
  resolve "set_extra_headers" (unary (fun headers => unsupported_feature "extra_headers")).

Definition set_text_body : method :=
  resolve "set_text_body" (abstract "implement set_text_body").

Definition set_html_body : method :=
  resolve "set_html_body" (abstract "implement set_html_body").

(** [before + "%s" + after % value]: a tuple on the right holds the
    arguments, of which the one directive takes exactly one; any other value
    is the argument itself.  The argument is put in as [str] gives it. *)
Definition percent_s (before after : string) (value : pyval) : outcome string :=
  let put (argument : pyval) :=
    match argument with
    | PyStr text => Return (before ++ text ++ after)
    | _ =>
        match str env argument with
        | Return text => Return (before ++ text ++ after)
        | Raise e => Raise e
        end
    end in
  match value with
  | PyTuple [] => Raise (TypeError "not enough arguments for format string")
  | PyTuple [argument] => put argument
  | PyTuple _ => Raise (TypeError "not all arguments converted during string formatting")
  | _ => put value
  end.

Definition add_alternative : method :=
  resolve "add_alternative" (binary (fun content mimetype =>
    feature <~ lift (percent_s "alternative part with type '" "'" mimetype) ;;
    unsupported_feature feature)).

Definition set_alternatives : method :=
  resolve "set_alternatives" (unary (fun alternatives =>
    for_in alternatives (fun alternative =>
      match alternative with
      | PyTuple [content; mimetype] | PyList [content; mimetype] =>
          match mimetype with
          | PyStr "text/html" => set_html_body [content]
          | _ => add_alternative [content; mimetype]
          end
      | _ => raise (ValueError "cannot unpack (content, mimetype)")
      end))).

Definition add_attachment : method :=
  resolve "add_attachment" (abstract "implement add_attachment or set_attachments").

Definition set_attachments : method :=
  resolve "set_attachments" (unary (fun attachments =>
    for_in attachments (fun attachment => add_attachment [attachment]))).

(** Anymail-specific payload construction *)
Definition set_metadata : method :=
  resolve "set_metadata" (unary (fun _ => unsupported_feature "metadata")).
Definition set_send_at : method :=
  resolve "set_send_at" (unary (fun _ => unsupported_feature "send_at")).
Definition set_tags : method :=
  resolve "set_tags" (unary (fun _ => unsupported_feature "tags")).
Definition set_track_clicks : method :=
  resolve "set_track_clicks" (unary (fun _ => unsupported_feature "track_clicks")).
Definition set_track_opens : method :=
  resolve "set_track_opens" (unary (fun _ => unsupported_feature "track_opens")).
Definition set_template_id : method :=
  resolve "set_template_id" (unary (fun _ => unsupported_feature "template_id")).
Definition set_merge_data : method :=
  resolve "set_merge_data" (unary (fun _ => unsupported_feature "merge_data")).
Definition set_merge_global_data : method :=
  resolve "set_merge_global_data" (unary (fun _ => unsupported_feature "merge_global_data")).

(** ESP-specific payload construction *)
Definition set_esp_extra : method :=
  resolve "set_esp_extra" (unary (fun _ => unsupported_feature "esp_extra")).

(** *** The attribute tables *)

Definition row (attr : string) (combiner : option (pyval -> pyval -> outcome pyval))
    (convert : option converter) : rule :=
  {| attr := attr; combiner := combiner; convert := convert |}.

Definition base_message_attrs : list rule := [
  (* Standard EmailMessage/EmailMultiAlternatives props *)
  row "from_email" (Some last) (Some (method_named "parsed_email"));
  row "to" (Some combine) (Some (method_named "parsed_emails"));
  row "cc" (Some combine) (Some (method_named "parsed_emails"));
  row "bcc" (Some combine) (Some (method_named "parsed_emails"));
  row "subject" (Some last) (Some (callable (force_non_lazy env)));
  row "reply_to" (Some combine) (Some (method_named "parsed_emails"));
  row "extra_headers" (Some combine) (Some (callable (force_non_lazy_dict env)));
  row "body" (Some last) (Some (callable (force_non_lazy env)));
  row "alternatives" (Some combine) (Some (method_named "prepped_alternatives"));
  row "attachments" (Some combine) (Some (method_named "prepped_attachments"))
].

Definition anymail_message_attrs : list rule := [
  (* Anymail expando-props *)
  row "metadata" (Some combine) (Some (callable (force_non_lazy_dict env)));
  row "send_at" (Some last) (Some (method_named "aware_datetime"));
  row "tags" (Some combine) (Some (callable (force_non_lazy_list env)));
  row "track_clicks" (Some last) None;
  row "track_opens" (Some last) None;
  row "template_id" (Some last) (Some (callable (force_non_lazy env)));
  row "merge_data" (Some combine) (Some (callable (force_non_lazy_dict env)));
  row "merge_global_data" (Some combine) (Some (callable (force_non_lazy_dict env)));
  row "esp_extra" (Some combine) (Some (callable (force_non_lazy_dict env)))
].

(** The methods of the base class, by name. *)
Definition BasePayload_methods : list (string * method) := [
  ("parsed_email", parsed_email);
  ("parsed_emails", parsed_emails);
  ("prepped_alternatives", prepped_alternatives);
  ("prepped_attachments", prepped_attachments);
  ("aware_datetime", aware_datetime);
  ("init_payload", init_payload);
  ("set_from_email", set_from_email);
  ("set_to", set_to);
  ("set_cc", set_cc);
  ("set_bcc", set_bcc);
  ("set_recipients", set_recipients);
  ("add_recipient", add_recipient);
  ("set_subject", set_subject);
  ("set_reply_to", set_reply_to);
  ("set_extra_headers", set_extra_headers);
  ("set_text_body", set_text_body);
  ("set_html_body", set_html_body);
  ("set_alternatives", set_alternatives);
  ("add_alternative", add_alternative);
  ("set_attachments", set_attachments);
  ("add_attachment", add_attachment);
  ("set_metadata", set_metadata);
  ("set_send_at", set_send_at);
  ("set_tags", set_tags);
  ("set_track_clicks", set_track_clicks);
  ("set_track_opens", set_track_opens);
  ("set_template_id", set_template_id);
  ("set_merge_data", set_merge_data);
  ("set_merge_global_data", set_merge_global_data);
  ("set_esp_extra", set_esp_extra)
].

Fixpoint assoc {A} (name : string) (table : list (string * A)) : option A :=
  match table with
  | [] => None
  | (n, x) :: table' => if String.eqb name n then Some x else assoc name table'
  end.

(** [getattr(self, name)] for a method name: an AttributeError when neither
    the base class nor the subclass has it. *)
Definition getattr_method (name : string) : M BasePayload method :=
  match assoc name BasePayload_methods with
  | Some m => ret m
  | None =>
      match defines cls name with
      | Some m => ret m
      | None => raise (AttributeError name)
      end
  end.

Definition in_self {A} (c : M BasePayload A) : M construction A :=
  zoom self (fun p s => {| self := p; setter_calls := setter_calls s |}) c.

Definition note_setter_call (name : string) (value : pyval) : M construction unit :=
  modify (fun s =>
    {| self := self s; setter_calls := setter_calls s ++ [(name, value)] |}).

(** *** [__init__] *)

(** The value of an attribute after the defaults are combined in: the first
    two steps of the loop body. *)
Definition combined_value (r : rule) : M BasePayload pyval :=
  self <~ get ;;
  let value := getattr (message self) (attr r) UNSET in
  match combiner r with
  | Some combiner =>
      let default_value :=
        match defaults self !! attr r with Some d => d | None => UNSET end in
      lift (combiner default_value value)
  | None => ret value
  end.

Definition converted_value (r : rule) (value : pyval) : M BasePayload pyval :=
  if is_not_UNSET value then
    match convert r with
    | Some (callable converter) => lift (converter value)
    | Some (method_named name) =>
        converter <~ getattr_method name ;;
        converter [value]
    | None => ret value
    end
  else ret value.

(** The setter an attribute's value goes to, with its name. *)
Definition setter_for (r : rule) : M BasePayload (string * method) :=
  self <~ get ;;
  if String.eqb (attr r) "body" then
    if String.eqb (content_subtype (message self)) "html"
    then ret ("set_html_body", set_html_body)
    else ret ("set_text_body", set_text_body)
  else
    (* AttributeError here? Your Payload subclass is missing a set_<attr> implementation *)
    setter <~ getattr_method ("set_" ++ attr r) ;;
    ret ("set_" ++ attr r, setter).

(** [setter(value)], noted in the record of setter calls. *)
Definition call_setter (name : string) (setter : method) (value : pyval)
    : M construction unit :=
  note_setter_call name value ;;;
  in_self (setter [value]) ;;;
  ret tt.

(** The rest of the loop body, from the combined value on: convert it, and
    hand it to the setter unless it is [UNSET]. *)
Definition deliver (r : rule) (value : pyval) : M construction unit :=
  value <~ in_self (converted_value r value) ;;
  if is_not_UNSET value then
    named_setter <~ in_self (setter_for r) ;;
    call_setter (fst named_setter) (snd named_setter) value
  else ret tt.

(** The body of the loop over [message_attrs]. *)
Definition process_attr (r : rule) : M construction unit :=
  value <~ in_self (combined_value r) ;;
  deliver r value.

Definition message_attrs : list rule :=
  (base_message_attrs ++ anymail_message_attrs ++ esp_message_attrs cls)%list.

(** The object as [__init__] finds it: the constructor's arguments, and
    nothing built yet. *)
Definition new_payload (message : EmailMessage) (defaults : gmap string pyval)
    (backend : BackendSettings) : construction :=
  {| self := {| message := message; defaults := defaults; backend := backend;
                payload_esp_name := None; data := blank cls |};
     setter_calls := [] |}.

Definition assign_esp_name (esp_name : string) : M BasePayload unit :=
  modify (fun self =>
    {| message := message self; defaults := defaults self; backend := backend self;
       payload_esp_name := Some esp_name; data := data self |}).

Definition BasePayload_init : M construction unit :=
  s <~ get ;;
  match declared_esp_name (backend (self s)) with
  | None => must_implement (class_module (backend (self s))) (class_name (backend (self s)))
                           "declare esp_name class attr"
  | Some esp_name =>
      in_self (assign_esp_name esp_name) ;;;
      in_self (init_payload []) ;;;
      for_each message_attrs process_attr
  end.

End Payload.

(** ** A small provider

    A concrete subclass pair, as a provider package would write it: the
    payload is a JSON-like list of fields, the provider accepts every address
    but those on its refusal list, and its connection is cached between
    batches.  Tags, metadata and the other extension attributes are left to
    the base class. *)
Module Provider.

Record account := { connected : bool; refuses : list string; posts : nat }.

Definition response : Type := list (string * string).   (* address, verdict *)

Definition fields : Type := list (string * pyval).

Definition Payload : Type := @BasePayload response fields.

(** [utcfromtimestamp] on whole seconds, by the civil-from-days rule of the
    proleptic Gregorian calendar; years outside 1..9999 are a ValueError,
    anything but an integer a TypeError. *)
Definition civil_from_days (days : Z) : date :=
  let z := days + 719468 in
  let era := z / 146097 in
  let doe := z - era * 146097 in
  let yoe := (doe - doe / 1460 + doe / 36524 - doe / 146096) / 365 in
  let doy := doe - (365 * yoe + yoe / 4 - yoe / 100) in
  let mp := (5 * doy + 2) / 153 in
  let d := doy - (153 * mp + 2) / 5 + 1 in
  let m := if mp <? 10 then mp + 3 else mp - 9 in
  let y := yoe + era * 400 + (if m <=? 2 then 1 else 0) in
  {| year := y; month := m; day := d |}.

Definition utcfromtimestamp_seconds (value : pyval) : outcome datetime :=
  match value with
  | PyInt t =>
      let d := civil_from_days (t / 86400) in
      let s := t mod 86400 in
      if (1 <=? year d) && (year d <=? 9999) then
        Return {| dt_date := d; hour := s / 3600; minute := (s mod 3600) / 60;
                  second := s mod 60; microsecond := 0; dt_tzinfo := None |}
      else Raise (ValueError "year is out of range")
  | _ => Raise (TypeError "an integer is required")
  end.

Definition text (value : pyval) : pyval :=
  match value with PyLazy s => PyStr s | _ => value end.

Definition env : Environment :=
  {| ParsedEmail := fun address encoding => Return (text address);
     Attachment := fun attachment encoding => Return attachment;
     force_non_lazy := fun value => Return (text value);
     force_non_lazy_list := fun value =>
       match value with
       | PyList l => Return (PyList (map text l))
       | _ => Return (text value)
       end;
     force_non_lazy_dict := fun value =>
       match value with
       | PyDict d => Return (PyDict (text <$> d))
       | _ => Return (text value)
       end;
     DEFAULT_CHARSET := PyStr "utf-8";
     get_current_timezone := {| tzname := "+02:00"; utcoffset_minutes := 120 |};
     utcfromtimestamp := utcfromtimestamp_seconds;
     localize := fun _ _ => None;
     str := fun value =>
       match text value with
       | PyStr s => Return s
       | PyNone => Return "None"
       | _ => Return "<object>"
       end |}.

(** [self.data[key] = value] *)
Definition set_field (key : string) (value : pyval) : M Payload pyval :=
  modify (fun self : Payload =>
    {| message := message self; defaults := defaults self; backend := backend self;
       payload_esp_name := payload_esp_name self;
       data := (data self ++ [(key, value)])%list |}) ;;;
  ret PyNone.

Definition payload_class : PayloadClass :=
  {| payload_module := "provider.backend";
     payload_name := "ProviderPayload";
     esp_message_attrs := [];
     blank := [];
     defines := fun name =>
       match name with
       | "init_payload" => Some (fun _ => ret PyNone)
       | "set_from_email" => Some (unary (set_field "from"))
       | "add_recipient" =>
           Some (binary (fun recipient_type email =>
             match recipient_type with
             | PyStr kind => set_field kind email
             | _ => raise (TypeError "recipient_type")
             end))
       | "set_subject" => Some (unary (set_field "subject"))
       | "set_text_body" => Some (unary (set_field "text"))
       | "set_html_body" => Some (unary (set_field "html"))
       | "set_send_at" => Some (unary (set_field "send_at"))
       | _ => None
       end |}.

Definition config (fail_silently ignore_unsupported_features ignore_recipient_status : bool)
    : BackendSettings :=
  {| class_module := "provider.backend";
     class_name := "ProviderBackend";
     fail_silently := fail_silently;
     ignore_unsupported_features := ignore_unsupported_features;
     ignore_recipient_status := ignore_recipient_status;
     send_defaults := ∅;
     declared_esp_name := Some "Provider" |}.

Definition addressed (payload : Payload) : list string :=
  omap (fun field : string * pyval =>
          match field with
          | ("to", PyStr address) | ("cc", PyStr address) | ("bcc", PyStr address) =>
              Some address
          | _ => None
          end)
       (data payload).

Definition provider_backend (config : BackendSettings)
    : @Backend account Payload response :=
  {| settings := config;
     open := fun w =>
       if connected w then (Return false, w)
       else (Return true, {| connected := true; refuses := refuses w; posts := posts w |});
     close := fun w =>
       (Return tt, {| connected := false; refuses := refuses w; posts := posts w |});
     build_message_payload := fun message defaults w =>
       match BasePayload_init env payload_class (new_payload payload_class message defaults config) with
       | (Return _, built) => (Return (self built), w)
       | (Raise e, _) => (Raise e, w)
       end;
     post_to_esp := fun payload message w =>
       if connected w then
         (Return (map (fun address =>
                    (address,
                     if existsb (String.eqb address) (refuses w) then "rejected" else "sent"))
                    (addressed payload)),
          {| connected := true; refuses := refuses w; posts := S (posts w) |})
       else (Raise (AnymailAPIError "not connected"), w);
     parse_recipient_status := fun response payload message w =>
       (Return (list_to_map (map (fun '(address, verdict) =>
                  (address, {| message_id := PyNone; status := verdict |})) response)), w) |}.

Definition mail (to : list string) (more : list (string * pyval)) : @EmailMessage response :=
  {| attrs := list_to_map ([("from_email", PyStr "from@example.com");
                            ("to", PyList (map PyStr to));
                            ("cc", PyList []); ("bcc", PyList []);
                            ("subject", PyStr "Subject");
                            ("body", PyStr "Body")] ++ more)%list;
     content_subtype := "plain";
     encoding := PyNone;
     anymail_status := None |}.

Definition no_receivers : @Signals account response :=
  {| pre_send := []; post_send := [] |}.

Definition start (refuses : list string) : @world account :=
  {| ext := {| connected := false; refuses := refuses; posts := 0 |}; log := [] |}.

End Provider.

(** ** Runs of the small provider *)
Module Scenario.

Import Provider.

Definition strict : @Backend account Payload response := provider_backend (config false false false).
Definition lenient : @Backend account Payload response := provider_backend (config false false true).
Definition permissive : @Backend account Payload response := provider_backend (config false true false).
Definition silent : @Backend account Payload response := provider_backend (config true false false).

(** A provider whose parser finds no recipient in the response. *)
Definition mute : @Backend account Payload response :=
  {| settings := config false false false;
     open := open strict;
     close := close strict;
     build_message_payload := build_message_payload strict;
     post_to_esp := post_to_esp strict;
     parse_recipient_status := fun _ _ _ w => (Return ∅, w) |}.

(** Two post-send receivers: the first raises, the second returns. *)
Definition failing_observer : @Signals account response :=
  {| pre_send := [];
     post_send := [ (fun _ _ _ w => (Raise (ValueError "observer failed"), w));
                    (fun _ _ _ w => (Return (inl PyNone), w)) ] |}.

(** One post-send receiver, which returns. *)
Definition watching : @Signals account response :=
  {| pre_send := [];
     post_send := [ (fun _ _ _ w => (Return (inl PyNone), w)) ] |}.

(** Two post-send receivers: the first hands an exception instance back as
    its return value, the second raises another one. *)
Definition handed_back : exn := ValueError "handed back".

(** One post-send receiver, which hands an exception instance back. *)
Definition handing_back : @Signals account response :=
  {| pre_send := [];
     post_send := [ (fun _ _ _ w => (Return (inr handed_back), w)) ] |}.

Definition returning_observer : @Signals account response :=
  {| pre_send := [];
     post_send := [ (fun _ _ _ w => (Return (inr handed_back), w));
                    (fun _ _ _ w => (Raise (ValueError "observer failed"), w)) ] |}.

(** Two post-send receivers: the first raises what is no [Exception], the
    second returns. *)
Definition interrupt : exn :=
  {| exc_class := "KeyboardInterrupt"; exc_bases := ["BaseException"]; exc_message := "" |}.

Definition interrupted_observer : @Signals account response :=
  {| pre_send := [];
     post_send := [ (fun _ _ _ w => (Raise interrupt, w));
                    (fun _ _ _ w => (Return (inl PyNone), w)) ] |}.

(** The provider refuses c@example.com; the connection is open. *)
Definition online : @world account :=
  {| ext := {| connected := true; refuses := ["c@example.com"]; posts := 0 |};
     log := [] |}.

Definition offline : @world account := start ["c@example.com"].

Definition to_a_b : @EmailMessage response := mail ["a@example.com"; "b@example.com"] [].
Definition to_nobody : @EmailMessage response := mail [] [].
Definition to_c : @EmailMessage response := mail ["c@example.com"] [].
Definition tagged : @EmailMessage response := mail ["a@example.com"] [("tags", PyList [PyStr "x"])].
Definition with_attachment : @EmailMessage response :=
  mail ["a@example.com"] [("attachments", PyList [PyStr "report.pdf"])].

Definition sending (message : @EmailMessage response) : @send_state account response :=
  {| the_message := message; the_world := online |}.

Definition batch (w : @world account) : @batch_state account response := {| processed := []; batch_world := w |}.

Definition march_first : date := {| year := 2024; month := 3; day := 1 |}.

Definition send_at_rule : rule :=
  row "send_at" (Some last) (Some (method_named "aware_datetime")).

Definition tags_rule : rule :=
  row "tags" (Some combine) (Some (callable (force_non_lazy_list env))).

Definition metadata_rule : rule :=
  row "metadata" (Some combine) (Some (callable (force_non_lazy_dict env))).

(** A payload under construction for a message with the given extra
    attributes, under the given defaults. *)
Definition constructing (more : list (string * pyval)) (defaults : list (string * pyval))
    : @construction response fields :=
  {| self := {| message := mail ["a@example.com"] more;
                defaults := list_to_map defaults;
                backend := config false true false;
                payload_esp_name := Some "Provider";
                data := [] |};
     setter_calls := [] |}.

(** The objects a send goes through.  [built]: the payload
    [build_message_payload] returns for a message; [verdicts]: what the
    parser makes of a response; [parsed]: the status the message carries
    once the response is parsed; [after]: the state of the send then. *)
Definition built (config : BackendSettings) (message : @EmailMessage response) : Payload :=
  self (snd (BasePayload_init env payload_class
               (new_payload payload_class
                  (set_anymail_status (Some AnymailStatus_new) message) ∅ config))).

Definition verdicts (answer : response) : gmap string AnymailRecipientStatus :=
  list_to_map (map (fun '(address, verdict) =>
                 (address, {| message_id := PyNone; status := verdict |})) answer).

Definition parsed (recipient_status : gmap string AnymailRecipientStatus)
    (answer : response) : @AnymailStatus response :=
  set_recipient_status recipient_status (set_esp_response answer AnymailStatus_new).

Definition after (message : @EmailMessage response)
    (recipient_status : gmap string AnymailRecipientStatus) (answer : response)
    (calls : list event) : @send_state account response :=
  {| the_message := set_anymail_status (Some (parsed recipient_status answer)) message;
     the_world := {| ext := {| connected := true; refuses := ["c@example.com"]; posts := 1 |};
                     log := calls |} |}.

Definition c_rejected : response := [("c@example.com", "rejected")].
Definition a_b_sent : response := [("a@example.com", "sent"); ("b@example.com", "sent")].

Definition dispatched : list event :=
  [call_build_message_payload; call_post_to_esp; call_parse_recipient_status].

Definition observer_error : exn := ValueError "observer failed".

Definition a_sent : response := [("a@example.com", "sent")].

Definition scheduled : list (string * pyval) := [("send_at", PyDate march_first)].

Definition tag_x : pyval := PyList [PyStr "x"].
Definition tag_y : pyval := PyList [PyStr "y"].

Definition default_metadata : gmap string pyval :=
  list_to_map [("campaign", PyStr "spring"); ("source", PyStr "settings")].
Definition message_metadata : gmap string pyval :=
  list_to_map [("source", PyStr "message")].

(** Midnight of 1 March 2024 in the current time zone, UTC+2. *)
Definition local_midnight : datetime :=
  {| dt_date := march_first; hour := 0; minute := 0; second := 0; microsecond := 0;
     dt_tzinfo := Some {| tzname := "+02:00"; utcoffset_minutes := 120 |} |}.

(** The construction once the provider's [set_send_at] has received midnight
    of 1 March 2024, local time. *)
Definition sent_at (s : @construction response fields) : @construction response fields :=
  {| self := {| message := message (self s);
                defaults := defaults (self s);
                backend := backend (self s);
                payload_esp_name := payload_esp_name (self s);
                data := (data (self s) ++ [("send_at", PyDatetime local_midnight)])%list |};
     setter_calls := (setter_calls s ++ [("set_send_at", PyDatetime local_midnight)])%list |}.

(** More runs: pre-send receivers that cancel or fail, a mixed response, a
    provider class that defines nothing, and a clock that overflows. *)
Definition cancel : exn := builtin_exception "AnymailCancelSend" ["AnymailError"] "".

Definition cancelling : @Signals account response :=
  {| pre_send := [ (fun message _ w => (Raise cancel, (message, w)));
                   (fun message _ w => (Return PyNone, (message, w))) ];
     post_send := [] |}.

Definition vetoing : @Signals account response :=
  {| pre_send := [ (fun message _ w => (Raise observer_error, (message, w))) ];
     post_send := [] |}.

Definition waiting (message : @EmailMessage response) (w : @world account)
    : @send_state account response :=
  {| the_message := set_anymail_status (Some AnymailStatus_new) message; the_world := w |}.

Definition called (w : @world account) (calls : list event) : @world account :=
  {| ext := ext w; log := calls |}.

Definition to_a_c : @EmailMessage response := mail ["a@example.com"; "c@example.com"] [].

Definition a_sent_c_rejected : response :=
  [("a@example.com", "sent"); ("c@example.com", "rejected")].

Definition bare_class : @PayloadClass response fields :=
  {| payload_module := "bare.backend";
     payload_name := "BarePayload";
     esp_message_attrs := [];
     blank := [];
     defines := fun _ => None |}.

(** The base class itself, and a subclass that declares an [esp_name] and
    nothing else; both in fail-silent mode. *)
Definition bare_arguments : BackendArguments :=
  {| of_module := "anymail.backends.base";
     of_name := "AnymailBaseBackend";
     of_esp_name := None;
     kw_fail_silently := true;
     found_ignore_unsupported_features := false;
     found_ignore_recipient_status := false;
     found_send_defaults := ∅;
     found_esp_send_defaults := fun _ => None |}.

Definition named_arguments : BackendArguments :=
  {| of_module := "bare.backend";
     of_name := "BareBackend";
     of_esp_name := Some "Bare";
     kw_fail_silently := true;
     found_ignore_unsupported_features := false;
     found_ignore_recipient_status := false;
     found_send_defaults := list_to_map [("tags", tag_x); ("track_opens", PyBool true)];
     found_esp_send_defaults := fun esp_name =>
       if String.eqb esp_name "Bare" then Some (list_to_map [("tags", tag_y)]) else None |}.

Definition campaign_rule : rule := row "campaign_id" None None.








End Scenario.

(** * Vocabulary of the properties *)

(** [appends logof P c]: whatever [c] does, returning or raising, the log
    afterwards is the log before followed by events that all satisfy [P]. *)
Definition appends {S A} (logof : S -> list event) (P : event -> Prop) (c : M S A) : Prop :=
  forall s, exists evs, logof (snd (c s)) = (logof s ++ evs)%list /\ Forall P evs.

Definition send_log {W Response} (s : @send_state W Response) : list event :=
  log (the_world s).

Definition batch_log {W Response} (s : @batch_state W Response) : list event :=
  log (batch_world s).

(** Events of the connection's life cycle, and the others. *)
Definition is_close (ev : event) : bool :=
  match ev with call_close => true | _ => false end.

Definition closes (l : list event) : nat := length (List.filter is_close l).

Definition in_session (ev : event) : Prop := ev <> call_open /\ ev <> call_close.

Definition by_pre_send_receiver (ev : event) : Prop :=
  exists i, ev = call_pre_send_receiver i.

(** The attributes whose setter, in the base class, reports an unsupported
    feature. *)
Definition unsupported_by_default : list string :=
  ["reply_to"; "extra_headers"; "metadata"; "send_at"; "tags"; "track_clicks";
   "track_opens"; "template_id"; "merge_data"; "merge_global_data"; "esp_extra"].

(** The value an attribute has in the defaults, [UNSET] when it has none. *)
Definition default_of {Response PData} (p : @BasePayload Response PData) (attr : string)
    : pyval :=
  match defaults p !! attr with Some d => d | None => UNSET end.

(** Every recipient of a parsed response was refused. *)
Definition all_refused (recipient_status : gmap string AnymailRecipientStatus) : Prop :=
  forall address r, recipient_status !! address = Some r ->
    status r = "invalid" \/ status r = "rejected".

(** The first response of a robust dispatch that [run_post_send] re-raises. *)
Fixpoint first_exception (results : list (nat * (pyval + exn))) : option exn :=
  match results with
  | [] => None
  | (_, inr err) :: rest =>
      if isinstance err "Exception" then Some err else first_exception rest
  | (_, inl _) :: rest => first_exception rest
  end.

(** What the post-send receivers do when each is called in turn, on the
    provider state the one before left: the outcome of each, returned or
    raised, and the state after the last. *)
Fixpoint observed {W Response} (receivers : list (@post_send_receiver W Response))
    (message : @EmailMessage Response) (st : @AnymailStatus Response) (name : string)
    (x : W) : list (outcome (pyval + exn)) * W :=
  match receivers with
  | [] => ([], x)
  | receiver :: rest =>
      match receiver message st name x with
      | (o, x1) =>
          match observed rest message st name x1 with
          | (os, x2) => (o :: os, x2)
          end
      end
  end.

(** A receiver's response: what it returned, or the error it raised. *)
Definition response_of (o : outcome (pyval + exn)) : pyval + exn :=
  match o with
  | Return r => r
  | Raise e => inr e
  end.

(** The receiver returned, and what it returned is no instance of
    [Exception]. *)
Definition quiet (o : outcome (pyval + exn)) : bool :=
  match o with
  | Return (inl _) => true
  | Return (inr e) => negb (isinstance e "Exception")
  | Raise _ => false
  end.

(** Every error among the outcomes is an instance of [Exception]. *)
Definition raises_only_exceptions (os : list (outcome (pyval + exn))) : Prop :=
  forall e, In (Raise e) os -> isinstance e "Exception" = true.

(** The elements of a list, each with its index, counted from [i]. *)
Definition numbered {A} (i : nat) (l : list A) : list (nat * A) :=
  List.combine (seq i (length l)) l.

(** The state of a send once receivers [0] to [n - 1] of the post-send signal
    have been called and left the provider state [x]. *)
Definition post_sent {W Response} (s : @send_state W Response) (n : nat) (x : W)
    : @send_state W Response :=
  {| the_message := the_message s;
     the_world := {| ext := x;
                     log := log (the_world s)
                            ++ map call_post_send_receiver (seq 0 n) |} |}.

(** The runs of [_send] on the messages of a batch, one after the other, each
    in the world the one before left, whether it returned or raised. *)
Fixpoint send_each {W Payload Response} (signals : @Signals W Response)
    (self : @Backend W Payload Response) (email_messages : list (@EmailMessage Response))
    (w : @world W) : list (outcome bool * @send_state W Response) :=
  match email_messages with
  | [] => []
  | message :: rest =>
      let run := _send signals self {| the_message := message; the_world := w |} in
      run :: send_each signals self rest (the_world (snd run))
  end.

(** The run returned True. *)
Definition reported_sent {S} (run : outcome bool * S) : bool :=
  match fst run with
  | Return true => true
  | _ => false
  end.

(** The setter [name] receives [value]: it runs on it, on the payload [p],
    and the call is the next on the record [calls]. *)
Definition received {Response PData} (name : string) (setter : @method Response PData)
    (value : pyval) (p : @BasePayload Response PData) (calls : list (string * pyval))
    : outcome unit * @construction Response PData :=
  match setter [value] p with
  | (Return _, p') =>
      (Return tt, {| self := p'; setter_calls := calls ++ [(name, value)] |})
  | (Raise e, p') =>
      (Raise e, {| self := p'; setter_calls := calls ++ [(name, value)] |})
  end.

(** [name] is the setter the loop of [__init__] calls for the rule [r]. *)
Definition setter_named (r : rule) (name : string) : Prop :=
  if String.eqb (attr r) "body"
  then name = "set_html_body" \/ name = "set_text_body"
  else name = "set_" ++ attr r.


(** The methods of the base class that only read the payload: its
    converters, and the setters that report an unsupported feature. *)
Definition read_only_methods : list string :=
  (["parsed_email"; "parsed_emails"; "prepped_alternatives"; "prepped_attachments";
    "aware_datetime"]
   ++ map (String.append "set_") unsupported_by_default)%list.


(** * Properties *)

(** ** The monad *)

Section MonadFacts.

Context {S : Type}.

Lemma bind_Return {A B} (c : M S A) (k : A -> M S B) s a s' :
  c s = (Return a, s') -> bind c k s = k a s'.
Proof. intros H. unfold bind. now rewrite H. Qed.

Lemma bind_Raise {A B} (c : M S A) (k : A -> M S B) s e s' :
  c s = (Raise e, s') -> bind c k s = (Raise e, s').
Proof. intros H. unfold bind. now rewrite H. Qed.

Lemma bind_assoc {A B C} (c : M S A) (k : A -> M S B) (h : B -> M S C) s :
  bind (bind c k) h s = bind c (fun a => bind (k a) h) s.
Proof. unfold bind. destruct (c s) as [[a|e] s']; reflexivity. Qed.

Lemma bind_ext {A B} (c : M S A) (k k' : A -> M S B) s :
  (forall a s', k a s' = k' a s') -> bind c k s = bind c k' s.
Proof. intros H. unfold bind. destruct (c s) as [[a|e] s']; [apply H | reflexivity]. Qed.

Lemma bind_Return_inv {A B} (c : M S A) (k : A -> M S B) s b s2 :
  bind c k s = (Return b, s2) ->
  exists a s1, c s = (Return a, s1) /\ k a s1 = (Return b, s2).
Proof.
  unfold bind. destruct (c s) as [[a|e] s1]; [| discriminate].
  intros H. now exists a, s1.
Qed.

End MonadFacts.


(** ** What a computation adds to the log *)

Section Appends.

Context {S : Type}.
Variable logof : S -> list event.
Variable P : event -> Prop.

Lemma appends_silent {A} (c : M S A) :
  (forall s, logof (snd (c s)) = logof s) -> appends logof P c.
Proof. intros H s. exists []. rewrite H, app_nil_r. auto. Qed.

Lemma appends_ret {A} (a : A) : appends logof P (ret a).
Proof. now apply appends_silent. Qed.

Lemma appends_raise {A} (e : exn) : appends logof P (@raise S A e).
Proof. now apply appends_silent. Qed.

Lemma appends_bind {A B} (c : M S A) (k : A -> M S B) :
  appends logof P c -> (forall a, appends logof P (k a)) -> appends logof P (bind c k).
Proof.
  intros Hc Hk s. unfold bind.
  destruct (Hc s) as (evs & Hlog & Hevs).
  destruct (c s) as [[a|e] s']; simpl in *.
  - destruct (Hk a s') as (evs' & Hlog' & Hevs').
    exists (evs ++ evs')%list. rewrite Hlog', Hlog, app_assoc.
    split; [reflexivity | now apply Forall_app].
  - now exists evs.
Qed.

Lemma appends_try_except {A} (c : M S A) handles (h : exn -> M S A) :
  appends logof P c -> (forall e, appends logof P (h e)) -> appends logof P (try_except c handles h).
Proof.
  intros Hc Hh s. unfold try_except.
  destruct (Hc s) as (evs & Hlog & Hevs).
  destruct (c s) as [[a|e] s']; simpl in *.
  - now exists evs.
  - destruct (handles e); [| now exists evs].
    destruct (Hh e s') as (evs' & Hlog' & Hevs').
    exists (evs ++ evs')%list. rewrite Hlog', Hlog, app_assoc.
    split; [reflexivity | now apply Forall_app].
Qed.

Lemma appends_for_each {A} (l : list A) (body : A -> M S unit) :
  (forall x, appends logof P (body x)) -> appends logof P (for_each l body).
Proof.
  intros Hbody. induction l as [|x l IH]; simpl.
  - apply appends_ret.
  - apply appends_bind; auto.
Qed.

Lemma appends_if {A} (b : bool) (c1 c2 : M S A) :
  appends logof P c1 -> appends logof P c2 -> appends logof P (if b then c1 else c2).
Proof. now destruct b. Qed.

End Appends.

Lemma appends_weaken {S A} (logof : S -> list event) (P Q : event -> Prop) (c : M S A) :
  (forall ev, P ev -> Q ev) -> appends logof P c -> appends logof Q c.
Proof.
  intros HPQ Hc s. destruct (Hc s) as (evs & Hlog & Hevs).
  exists evs. split; [assumption |]. eapply Forall_impl; eauto.
Qed.

Lemma appends_zoom {S T A} (logS : S -> list event) (logT : T -> list event)
    (P : event -> Prop) (proj : S -> T) (inj : T -> S -> S) (c : M T A) :
  (forall s, logT (proj s) = logS s) ->
  (forall t s, logS (inj t s) = logT t) ->
  appends logT P c -> appends logS P (zoom proj inj c).
Proof.
  intros Hproj Hinj Hc s. unfold zoom.
  destruct (Hc (proj s)) as (evs & Hlog & Hevs).
  destruct (c (proj s)) as [r t]; simpl in *.
  exists evs. now rewrite Hinj, Hlog, Hproj.
Qed.

Create HintDb appends discriminated.
#[global] Hint Resolve appends_ret appends_raise appends_bind appends_try_except
  appends_for_each appends_if : appends.

(** ** The send life cycle *)

Section SendFacts.

Context {W Payload Response : Type}.
Variable signals : @Signals W Response.
Variable self : @Backend W Payload Response.

Local Abbreviation slog := (@send_log W Response).
Local Abbreviation blog := (@batch_log W Response).

Lemma _send_stages s :
  _send signals self s =
  bind (dispatch_and_parse signals self)
       (fun parsed => match parsed with
                      | None => ret false
                      | Some (payload, response, _) => finalize signals self payload response
                      end) s.
Proof.
  unfold _send, dispatch_and_parse, finalize.
  repeat first
    [ rewrite bind_assoc; apply bind_ext; intros ? ?
    | match goal with |- context [if ?b then _ else _] => destruct b; [reflexivity |] end ].
  reflexivity.
Qed.

(** *** What each step adds to the log *)

Section Logged.

Variable P : event -> Prop.

Lemma appends_call {A} (ev : event) (c : M W A) :
  P ev -> appends log P (call ev c).
Proof.
  intros Hev w. unfold call. destruct (c (ext w)) as [r x]; simpl.
  exists [ev]. split; [reflexivity | now constructor].
Qed.

Lemma appends_in_world {A} (c : M world A) :
  appends log P c -> appends slog P (in_world c).
Proof. apply appends_zoom; reflexivity. Qed.

Lemma appends_in_batch_world {A} (c : M world A) :
  appends log P c -> appends blog P (in_batch_world c).
Proof. apply appends_zoom; reflexivity. Qed.

Lemma appends_read_message : appends slog P read_message.
Proof. now apply appends_silent. Qed.

Lemma appends_write_message message : appends slog P (write_message message).
Proof. now apply appends_silent. Qed.

Lemma appends_read_anymail_status : appends slog P read_anymail_status.
Proof.
  apply appends_bind; [apply appends_read_message |].
  intros message. destruct (anymail_status message); auto with appends.
Qed.

Lemma appends_update_anymail_status f : appends slog P (update_anymail_status f).
Proof.
  apply appends_bind; [apply appends_read_anymail_status |]. intros st.
  apply appends_bind; [apply appends_read_message |]. intros message.
  apply appends_write_message.
Qed.

Lemma appends_esp_name {S} (logof : S -> list event) : appends logof P (esp_name self).
Proof. unfold esp_name, must_implement. destruct (declared_esp_name self); auto with appends. Qed.

Lemma appends_Signal_send (receivers : list (@pre_send_receiver W Response)) i name :
  (forall j, P (call_pre_send_receiver j)) ->
  appends slog P (Signal_send receivers i name).
Proof.
  intros HP. revert i. induction receivers as [|receiver rest IH]; intros i; simpl.
  - apply appends_ret.
  - apply appends_bind; [| intros response; apply appends_bind; auto with appends].
    intros s. destruct (receiver _ _ _) as [r [message x]]; simpl.
    exists [call_pre_send_receiver i]. split; [reflexivity | now constructor].
Qed.

Lemma appends_Signal_send_robust (receivers : list (@post_send_receiver W Response))
    i message st name :
  (forall j, P (call_post_send_receiver j)) ->
  appends log P (Signal_send_robust receivers i message st name).
Proof.
  intros HP. revert i. induction receivers as [|receiver rest IH]; intros i; simpl.
  - apply appends_ret.
  - apply appends_bind; [| intros response; apply appends_bind; auto with appends].
    apply appends_try_except; [| auto with appends].
    apply appends_call, HP.
Qed.

Lemma appends_run_pre_send :
  (forall j, P (call_pre_send_receiver j)) ->
  appends slog P (run_pre_send signals self).
Proof.
  intros HP. unfold run_pre_send.
  apply appends_try_except; [| auto with appends].
  apply appends_bind; [apply appends_esp_name |]. intros name.
  apply appends_bind; [now apply appends_Signal_send | auto with appends].
Qed.

Lemma appends_raise_first_exception results :
  appends slog P (raise_first_exception results).
Proof.
  apply appends_for_each. intros [receiver [v|err]]; [apply appends_ret |].
  destruct (isinstance err "Exception"); auto with appends.
Qed.

Lemma appends_run_post_send :
  (forall j, P (call_post_send_receiver j)) ->
  appends slog P (run_post_send signals self).
Proof.
  intros HP. unfold run_post_send.
  apply appends_bind; [apply appends_read_message |]. intros message.
  apply appends_bind; [apply appends_read_anymail_status |]. intros st.
  apply appends_bind; [apply appends_esp_name |]. intros name.
  apply appends_bind; [| intros; apply appends_raise_first_exception].
  now apply appends_in_world, appends_Signal_send_robust.
Qed.

Lemma appends_raise_for_recipient_status {S} (logof : S -> list event)
    st response payload message :
  appends logof P (raise_for_recipient_status self st response payload message).
Proof.
  unfold raise_for_recipient_status.
  destruct (negb _); [| apply appends_ret].
  destruct (statuses st); [| apply appends_raise].
  destruct (bool_decide _); auto with appends.
Qed.

End Logged.

Lemma appends__send : appends slog in_session (_send signals self).
Proof.
  assert (Hin : forall ev, is_close ev = false -> ev <> call_open -> in_session ev).
  { intros ev Hc Ho. split; [assumption |]. intros ->. discriminate. }
  unfold _send.
  repeat first
    [ apply appends_ret
    | apply appends_read_message | apply appends_write_message
    | apply appends_read_anymail_status | apply appends_update_anymail_status
    | apply appends_raise_for_recipient_status
    | apply appends_run_pre_send; intros j; apply Hin; [reflexivity | discriminate]
    | apply appends_run_post_send; intros j; apply Hin; [reflexivity | discriminate]
    | apply appends_in_world, appends_call, Hin; [reflexivity | discriminate]
    | apply appends_if
    | apply appends_bind; [| intros ?] ].
Qed.

Lemma appends_send_message message :
  appends blog in_session (send_message signals self message).
Proof.
  intros s. unfold send_message.
  destruct (appends__send {| the_message := message; the_world := batch_world s |})
    as (evs & Hlog & Hevs).
  destruct (_send _ _ _) as [r s']; simpl in *. now exists evs.
Qed.

Lemma appends_for_message_in email_messages num_sent :
  appends blog in_session (for_message_in signals self email_messages num_sent).
Proof.
  revert num_sent. induction email_messages as [|message rest IH]; intros num_sent; simpl.
  - apply appends_ret.
  - apply appends_bind; [| intros sent; apply IH].
    apply appends_try_except; [apply appends_send_message |].
    intros e. destruct (fail_silently self); auto with appends.
Qed.

(** *** The batch sender and its session *)

Lemma closes_app l1 l2 : closes (l1 ++ l2) = (closes l1 + closes l2)%nat.
Proof. unfold closes. now rewrite List.filter_app, length_app. Qed.

Lemma closes_in_session evs : Forall in_session evs -> closes evs = 0%nat.
Proof.
  induction 1 as [|ev evs [_ Hev] _ IH]; [reflexivity |].
  unfold closes in *. simpl. destruct ev; simpl; try assumption. now destruct Hev.
Qed.

(** C2. [send_messages] calls [close()] if and only if the [open()] it made
    returned True, and then exactly once, as the last call of the batch, on
    every exit path: the statement holds of every run, whether the loop
    returns or an exception leaves it.  In the log of a run, what the batch
    added is nothing for an empty batch, and otherwise [open], then the calls
    of the loop (none of them [open] or [close]), then [close] exactly when
    [open] returned True. *)
Theorem send_messages_closes_iff_created email_messages s :
  let created :=
    match fst (open self (ext (batch_world s))) with
    | Return true => true
    | _ => false
    end in
  let s' := snd (send_messages signals self email_messages s) in
  exists evs,
    Forall in_session evs /\
    blog s' =
      (blog s ++ (if is_empty email_messages then []
                  else call_open :: evs ++ (if created then [call_close] else [])))%list /\
    closes (blog s') =
      (closes (blog s) + (if negb (is_empty email_messages) && created then 1 else 0))%nat.
Proof.
  intros created s'.
  assert (Hcount : forall evs, Forall in_session evs ->
    blog s' = (blog s ++ (if is_empty email_messages then []
                  else call_open :: evs ++ (if created then [call_close] else [])))%list ->
    closes (blog s') =
      (closes (blog s) + (if negb (is_empty email_messages) && created then 1 else 0))%nat).
  { intros evs Hevs ->. rewrite closes_app. f_equal.
    destruct (is_empty email_messages); [reflexivity |].
    change (call_open :: evs ++ (if created then [call_close] else []))%list
      with ([call_open] ++ evs ++ (if created then [call_close] else []))%list.
    rewrite !closes_app, (closes_in_session evs Hevs). now destruct created. }
  enough (exists evs, Forall in_session evs /\
    blog s' = (blog s ++ (if is_empty email_messages then []
                  else call_open :: evs ++ (if created then [call_close] else [])))%list)
    as (evs & Hevs & Hlog) by (exists evs; eauto).
  subst s' created. unfold send_messages.
  destruct email_messages as [|message rest].
  { exists []. cbn. now rewrite app_nil_r. }
  cbn [is_empty]. unfold bind at 1, in_batch_world, zoom, call.
  destruct (open self (ext (batch_world s))) as [[created|e] x]; cbn [fst snd];
    [| exists []; split; [constructor | reflexivity] ].
  unfold try_finally.
  match goal with |- context [for_message_in ?a ?b ?c ?d ?st] =>
    destruct (appends_for_message_in c d st) as (evs & Hlog & Hevs);
    destruct (for_message_in a b c d st) as [r s1] end.
  cbn in Hlog. exists evs. split; [assumption |].
  destruct created; cbn.
  - destruct (close self (ext (batch_world s1))) as [[[]|e] x']; cbn;
      unfold batch_log in *; rewrite Hlog; cbn; now rewrite <- !app_assoc.
  - unfold batch_log in *. rewrite Hlog. cbn. now rewrite app_nil_r, <- app_assoc.
Qed.

(** *** Messages without recipients *)

(** C4. A message that has no recipients once the pre-send hook has run
    without cancelling is reported not sent: [_send] returns False, raises
    nothing, and stops where [run_pre_send] left off, so that the only calls
    it has made are those to the pre-send receivers: no payload is built and
    [post_to_esp] is not called. *)
Theorem _send_without_recipients message w s1 :
  run_pre_send signals self
    {| the_message := set_anymail_status (Some AnymailStatus_new) message;
       the_world := w |} = (Return true, s1) ->
  recipients (the_message s1) = [] ->
  _send signals self {| the_message := message; the_world := w |} = (Return false, s1) /\
  exists evs, slog s1 = (log w ++ evs)%list /\ Forall by_pre_send_receiver evs.
Proof.
  intros Hpre Hnone. split.
  - unfold _send. unfold bind at 1 2 3. cbn [read_message write_message the_message the_world].
    rewrite Hpre. cbn [negb]. unfold bind at 1. cbn [read_message]. now rewrite Hnone.
  - destruct (appends_run_pre_send by_pre_send_receiver (fun j => ex_intro _ j eq_refl)
                {| the_message := set_anymail_status (Some AnymailStatus_new) message;
                   the_world := w |}) as (evs & Hlog & Hevs).
    rewrite Hpre in Hlog. now exists evs.
Qed.

(** *** From the parsed status to the outcome *)

Implicit Types s : @send_state W Response.

Lemma in_world_message {A} (c : M world A) (s : @send_state W Response) :
  the_message (snd (in_world c s)) = the_message s.
Proof. unfold in_world, zoom. now destruct (c (the_world s)). Qed.

Lemma read_anymail_status_Return s st s' :
  read_anymail_status s = (Return st, s') ->
  anymail_status (the_message s) = Some st /\ s' = s.
Proof.
  unfold read_anymail_status, bind, read_message.
  destruct (anymail_status (the_message s)); [| discriminate].
  cbn. intros [= -> ->]. auto.
Qed.

Lemma read_anymail_status_of s st :
  anymail_status (the_message s) = Some st -> read_anymail_status s = (Return st, s).
Proof. intros H. unfold read_anymail_status, bind, read_message. now rewrite H. Qed.

Lemma esp_name_of {S} (x : S) name :
  declared_esp_name self = Some name -> esp_name self x = (Return name, x).
Proof. intros H. unfold esp_name. now rewrite H. Qed.

Lemma update_anymail_status_Return f s s' :
  update_anymail_status f s = (Return tt, s') ->
  exists st, anymail_status (the_message s) = Some st /\
    s' = {| the_message := set_anymail_status (Some (f st)) (the_message s);
            the_world := the_world s |}.
Proof.
  unfold update_anymail_status. intros H.
  apply bind_Return_inv in H as (st & s1 & Hst & H).
  apply read_anymail_status_Return in Hst as [Hst ->].
  exists st. split; [assumption |]. cbn in H. now injection H as <-.
Qed.

Lemma esp_name_Return {S} (x : S) name x' :
  esp_name self x = (Return name, x') -> declared_esp_name self = Some name /\ x' = x.
Proof.
  unfold esp_name, must_implement. destruct (declared_esp_name self); [| discriminate].
  cbn. intros [= -> ->]. auto.
Qed.

Lemma run_pre_send_true s s' :
  run_pre_send signals self s = (Return true, s') ->
  exists name, declared_esp_name self = Some name.
Proof.
  unfold run_pre_send, try_except, bind.
  destruct (esp_name self s) as [[name|e] s1] eqn:Hname.
  - apply esp_name_Return in Hname as [Hname _]. eauto.
  - destruct (isinstance e "AnymailCancelSend"); discriminate.
Qed.

(** What a send that reaches the parsed status leaves on the message. *)
Lemma dispatch_and_parse_Some s payload response rs s1 :
  dispatch_and_parse signals self s = (Return (Some (payload, response, rs)), s1) ->
  (exists name, declared_esp_name self = Some name) /\
  exists st0, anymail_status (the_message s1) =
    Some (set_recipient_status rs (set_esp_response response st0)).
Proof.
  unfold dispatch_and_parse. intros H.
  apply bind_Return_inv in H as (m0 & s01 & _ & H).
  apply bind_Return_inv in H as ([] & s02 & _ & H).
  apply bind_Return_inv in H as (proceed & s03 & Hpre & H).
  destruct proceed; cbn [negb] in H; [| discriminate].
  split; [eapply run_pre_send_true; eassumption |].
  apply bind_Return_inv in H as (m1 & s04 & _ & H).
  destruct (is_empty (recipients m1)); [discriminate |].
  apply bind_Return_inv in H as (payload' & s05 & _ & H).
  apply bind_Return_inv in H as (m2 & s06 & _ & H).
  apply bind_Return_inv in H as (response' & s07 & _ & H).
  apply bind_Return_inv in H as ([] & s08 & Hresp & H).
  apply bind_Return_inv in H as (m3 & s09 & Hm3 & H).
  apply bind_Return_inv in H as (rs' & s10 & Hparse & H).
  apply bind_Return_inv in H as ([] & s11 & Hrs & H).
  cbn in H. injection H as -> -> -> ->.
  apply update_anymail_status_Return in Hresp as (st0 & _ & ->).
  cbn in Hm3. injection Hm3 as <- <-.
  apply update_anymail_status_Return in Hrs as (st1 & Hst1 & ->).
  pose proof (in_world_message
    (call call_parse_recipient_status
       (parse_recipient_status self response payload
          (set_anymail_status (Some (set_esp_response response st0)) (the_message s07))))
    {| the_message := set_anymail_status (Some (set_esp_response response st0))
                        (the_message s07);
       the_world := the_world s07 |}) as Hkeep.
  rewrite Hparse in Hkeep. cbn in Hkeep. rewrite Hkeep in Hst1. cbn in Hst1.
  injection Hst1 as <-. exists st0. reflexivity.
Qed.

Lemma all_refused_subset rs :
  all_refused rs ->
  (list_to_set (status <$> (map_to_list rs).*2) : gset string) ⊆ refused.
Proof.
  intros Hall x Hx.
  apply elem_of_list_to_set, list_elem_of_fmap in Hx as (r & -> & Hr).
  apply list_elem_of_fmap in Hr as ([address r'] & Heq & Hr). cbn in Heq. subst r.
  apply elem_of_map_to_list in Hr. unfold refused.
  destruct (Hall _ _ Hr) as [Hs | Hs]; rewrite Hs; set_solver.
Qed.

(** When the robust dispatch returns, it has called every receiver, in
    order. *)
Lemma Signal_send_robust_Return (receivers : list (@post_send_receiver W Response))
    i message st name w results w' :
  Signal_send_robust receivers i message st name w = (Return results, w') ->
  length results = length receivers /\
  log w' = (log w ++ map call_post_send_receiver (seq i (length receivers)))%list.
Proof.
  revert i w results. induction receivers as [|receiver rest IH]; intros i w results; simpl.
  - intros [= <- <-]. cbn. now rewrite app_nil_r.
  - intros H. apply bind_Return_inv in H as (response & w1 & Hcall & H).
    apply bind_Return_inv in H as (responses & w2 & Hrest & H).
    cbn in H. injection H as <- <-.
    apply IH in Hrest as [Hlen Hlog].
    assert (Hw1 : log w1 = (log w ++ [call_post_send_receiver i])%list).
    { unfold try_except, call in Hcall.
      destruct (receiver message st name (ext w)) as [[v|err] x]; cbn in Hcall.
      - now injection Hcall as _ <-.
      - destruct (isinstance err "Exception"); [| discriminate].
        now injection Hcall as _ <-. }
    split; [cbn; now rewrite Hlen |].
    rewrite Hlog, Hw1. cbn. now rewrite <- app_assoc.
Qed.

Lemma raise_first_exception_spec results (s : @send_state W Response) :
  raise_first_exception results s =
  match first_exception results with
  | Some e => (Raise e, s)
  | None => (Return tt, s)
  end.
Proof.
  unfold raise_first_exception.
  induction results as [|[receiver [v|err]] rest IH]; cbn; try reflexivity.
  - unfold bind. cbn. apply IH.
  - unfold bind. destruct (isinstance err "Exception"); cbn; [reflexivity | apply IH].
Qed.

(** The robust dispatch, from what the receivers do: when the errors they
    raise are instances of [Exception], all are called and each response is
    kept with the receiver's index. *)
Lemma Signal_send_robust_observed (receivers : list (@post_send_receiver W Response))
    i message st name w os x :
  observed receivers message st name (ext w) = (os, x) ->
  raises_only_exceptions os ->
  Signal_send_robust receivers i message st name w
  = (Return (numbered i (map response_of os)),
     {| ext := x;
        log := log w ++ map call_post_send_receiver (seq i (length receivers)) |}).
Proof.
  revert i w os x. induction receivers as [|receiver rest IH]; intros i w os x; simpl.
  - intros [= <- <-] _. cbn. rewrite app_nil_r. now destruct w.
  - destruct (receiver message st name (ext w)) as [o x1] eqn:Hcall.
    destruct (observed rest message st name x1) as [os' x2] eqn:Hrest.
    intros [= <- <-] Honly.
    assert (Hrest' : raises_only_exceptions os').
    { intros e He. apply Honly. now right. }
    unfold bind at 1, try_except, call. rewrite Hcall.
    assert (Hstep : forall r, response_of o = r ->
              (let (r0, s') := Signal_send_robust rest (S i) message st name
                                 {| ext := x1; log := log w ++ [call_post_send_receiver i] |} in
               match r0 with
               | Return a => ret ((i, r) :: a) s'
               | Raise e => (Raise e, s')
               end)
              = (Return (numbered i (map response_of (o :: os'))),
                 {| ext := x2;
                    log := log w ++ call_post_send_receiver i
                                    :: map call_post_send_receiver (seq (S i) (length rest)) |})).
    { intros r <-.
      rewrite (IH (S i) {| ext := x1; log := log w ++ [call_post_send_receiver i] |} os' x2
                 Hrest Hrest').
      cbn. unfold numbered. cbn. now rewrite <- app_assoc. }
    destruct o as [r|e]; cbn [response_of] in Hstep.
    + unfold bind. cbn. now apply Hstep.
    + rewrite (Honly e (or_introl eq_refl)). unfold bind. cbn. now apply Hstep.
Qed.

(** A receiver raising what is no [Exception] ends the robust dispatch. *)
Lemma Signal_send_robust_interrupted (before : list (@post_send_receiver W Response))
    receiver rest i message st name w os x e x' :
  observed before message st name (ext w) = (os, x) ->
  raises_only_exceptions os ->
  receiver message st name x = (Raise e, x') ->
  isinstance e "Exception" = false ->
  Signal_send_robust (before ++ receiver :: rest) i message st name w
  = (Raise e,
     {| ext := x';
        log := log w ++ map call_post_send_receiver (seq i (S (length before))) |}).
Proof.
  revert i w os x. induction before as [|first before IH]; intros i w os x; simpl.
  - intros [= <- <-] _ Hcall He.
    unfold bind at 1, try_except, call. rewrite Hcall, He. reflexivity.
  - destruct (first message st name (ext w)) as [o x1] eqn:Hfirst.
    destruct (observed before message st name x1) as [os' x2] eqn:Hbefore.
    intros [= <- <-] Honly Hcall He.
    assert (Hbefore' : raises_only_exceptions os').
    { intros e' He'. apply Honly. now right. }
    pose proof (IH (S i) {| ext := x1; log := log w ++ [call_post_send_receiver i] |} os' x2
                  Hbefore Hbefore' Hcall He) as Hrest.
    cbn [ext log] in Hrest. rewrite <- app_assoc in Hrest. cbn in Hrest.
    unfold bind at 1, try_except, call. rewrite Hfirst.
    destruct o as [r|e'].
    + unfold bind. cbn. now rewrite Hrest.
    + rewrite (Honly e' (or_introl eq_refl)). unfold bind. cbn. now rewrite Hrest.
Qed.

(** [run_post_send] on a message that carries a status: the robust dispatch,
    then the first collected exception, if any. *)
Lemma run_post_send_dispatch s st name :
  anymail_status (the_message s) = Some st ->
  declared_esp_name self = Some name ->
  run_post_send signals self s =
  match in_world (Signal_send_robust (post_send signals) 0 (the_message s) st name) s with
  | (Return results, s') =>
      match first_exception results with
      | Some e => (Raise e, s')
      | None => (Return tt, s')
      end
  | (Raise e, s') => (Raise e, s')
  end.
Proof.
  intros Hst Hname.
  unfold run_post_send, bind at 1. cbn [read_message].
  unfold bind at 1, read_anymail_status, bind at 1. cbn [read_message].
  rewrite Hst. cbn [ret].
  unfold bind at 1, esp_name. rewrite Hname. cbn [ret].
  unfold bind.
  destruct (in_world _ s) as [[results|e] s']; [| reflexivity].
  apply raise_first_exception_spec.
Qed.

(** Receivers that all return, none an instance of [Exception], leave no
    response for [run_post_send] to raise. *)
Lemma quiet_responses os i :
  forallb quiet os = true ->
  raises_only_exceptions os /\ first_exception (numbered i (map response_of os)) = None.
Proof.
  revert i. induction os as [|o os IH]; intros i Hquiet.
  - split; [intros e [] | reflexivity].
  - cbn in Hquiet. apply andb_true_iff in Hquiet as [Ho Hos].
    destruct (IH (S i) Hos) as [Honly Hnone]. split.
    + intros e [-> | He]; [discriminate | now apply Honly].
    + unfold numbered in *. cbn.
      destruct o as [[v|e]|e]; cbn in Ho |- *; [exact Hnone | | discriminate].
      apply negb_true_iff in Ho. rewrite Ho. exact Hnone.
Qed.

Lemma run_post_send_quiet s st name os x :
  anymail_status (the_message s) = Some st ->
  declared_esp_name self = Some name ->
  observed (post_send signals) (the_message s) st name (ext (the_world s)) = (os, x) ->
  forallb quiet os = true ->
  run_post_send signals self s = (Return tt, post_sent s (length (post_send signals)) x).
Proof.
  intros Hst Hname Hos Hquiet.
  destruct (quiet_responses os 0 Hquiet) as [Honly Hnone].
  rewrite (run_post_send_dispatch s st name Hst Hname).
  unfold in_world, zoom.
  rewrite (Signal_send_robust_observed _ 0 _ _ _ (the_world s) _ _ Hos Honly), Hnone.
  reflexivity.
Qed.

(** [run_post_send] never writes to the message. *)
Lemma run_post_send_keeps_message s :
  the_message (snd (run_post_send signals self s)) = the_message s.
Proof.
  unfold run_post_send, bind at 1. cbn [read_message].
  unfold bind at 1, read_anymail_status, bind at 1. cbn [read_message].
  destruct (anymail_status (the_message s)) as [st|]; [| reflexivity]. cbn [ret].
  unfold bind at 1, esp_name, must_implement.
  destruct (declared_esp_name self) as [name|]; [| reflexivity]. cbn [ret].
  unfold bind.
  pose proof (in_world_message
                (Signal_send_robust (post_send signals) 0 (the_message s) st name) s) as Hkeep.
  destruct (in_world _ s) as [[results|e] s1]; cbn in Hkeep; [| assumption].
  rewrite raise_first_exception_spec. now destruct (first_exception results).
Qed.

(** When [run_post_send] returns, every receiver has been called, in order,
    and the message is as it was. *)
Lemma run_post_send_Return s s' :
  run_post_send signals self s = (Return tt, s') ->
  the_message s' = the_message s /\
  slog s' = (slog s ++ map call_post_send_receiver
                         (seq 0 (length (post_send signals))))%list.
Proof.
  intros Hpost. split.
  - pose proof (run_post_send_keeps_message s) as Hkeep. now rewrite Hpost in Hkeep.
  - unfold run_post_send in Hpost.
    apply bind_Return_inv in Hpost as (message & s01 & Hread & Hpost).
    cbn in Hread. injection Hread as <- <-.
    apply bind_Return_inv in Hpost as (st & s02 & Hst & Hpost).
    apply read_anymail_status_Return in Hst as [_ ->].
    apply bind_Return_inv in Hpost as (name & s03 & Hname & Hpost).
    apply esp_name_Return in Hname as [_ ->].
    apply bind_Return_inv in Hpost as (results & s04 & Hrun & Hpost).
    rewrite raise_first_exception_spec in Hpost.
    destruct (first_exception results); [discriminate |]. injection Hpost as <-.
    unfold in_world, zoom in Hrun.
    destruct (Signal_send_robust _ _ _ _ _ _) as [r w'] eqn:Hrobust.
    injection Hrun as -> <-.
    now apply Signal_send_robust_Return in Hrobust as [_ Hlog].
Qed.

(** [_send] from the parsed status on: the post-send signal, then the status
    check. *)
Lemma _send_finalize s payload response rs s1 :
  dispatch_and_parse signals self s = (Return (Some (payload, response, rs)), s1) ->
  _send signals self s = finalize signals self payload response s1.
Proof. intros H. rewrite _send_stages. unfold bind. now rewrite H. Qed.

Lemma finalize_after_post_send payload response s1 s2 st :
  run_post_send signals self s1 = (Return tt, s2) ->
  anymail_status (the_message s2) = Some st ->
  finalize signals self payload response s1 =
  match raise_for_recipient_status self st response payload (the_message s2) s2 with
  | (Return _, s3) => (Return true, s3)
  | (Raise e, s3) => (Raise e, s3)
  end.
Proof.
  intros Hpost Hst. unfold finalize.
  erewrite bind_Return by eassumption.
  erewrite bind_Return by (apply read_anymail_status_of; eassumption).
  erewrite bind_Return by reflexivity.
  unfold bind.
  destruct (raise_for_recipient_status _ _ _ _ _ _) as [[[]|e] s3]; reflexivity.
Qed.

(** C1, as amended.  When the parsed statuses of a send are all "invalid"
    or "rejected" and every post-send receiver returns, none of them an
    instance of [Exception]: with [ignore_recipient_status] unset [_send]
    raises AnymailRecipientsRefused; with it set [_send] returns True, and the
    message carries the aggregate status: the set of the parsed statuses, the
    per-recipient entries and the provider's response.  In both cases every
    post-send receiver has been called. *)
Theorem _send_all_recipients_refused s payload response rs s1 st name os x :
  dispatch_and_parse signals self s = (Return (Some (payload, response, rs)), s1) ->
  all_refused rs ->
  anymail_status (the_message s1) = Some st ->
  declared_esp_name self = Some name ->
  observed (post_send signals) (the_message s1) st name (ext (the_world s1)) = (os, x) ->
  forallb quiet os = true ->
  (ignore_recipient_status self = false ->
     _send signals self s
       = (Raise (AnymailRecipientsRefused ""),
          post_sent s1 (length (post_send signals)) x)) /\
  (ignore_recipient_status self = true ->
     _send signals self s = (Return true, post_sent s1 (length (post_send signals)) x) /\
     anymail_status (the_message (post_sent s1 (length (post_send signals)) x)) = Some st /\
     statuses st = Some (list_to_set (status <$> (map_to_list rs).*2)) /\
     recipients_status st = rs /\
     esp_response st = Some response).
Proof.
  intros Hparsed Hall Hst Hname Hos Hquiet.
  pose proof (run_post_send_quiet s1 st name os x Hst Hname Hos Hquiet) as Hpost.
  destruct (dispatch_and_parse_Some _ _ _ _ _ Hparsed) as [_ [st0 Hst0]].
  rewrite Hst in Hst0. injection Hst0 as ->.
  rewrite (_send_finalize _ _ _ _ _ Hparsed),
    (finalize_after_post_send _ _ _ _ _ Hpost Hst).
  unfold raise_for_recipient_status. split; intros Hignore; rewrite Hignore; cbn.
  - rewrite bool_decide_eq_true_2 by now apply all_refused_subset. reflexivity.
  - repeat split. exact Hst.
Qed.

(** C8, as amended.  Once a send has reached the parsed status, the
    post-send signal is dispatched before the status is looked at, whatever
    the statuses and [ignore_recipient_status] are.  When the errors the
    receivers raise are instances of [Exception], every registered receiver
    is called, in order, whatever the earlier ones raised; the response of
    each is what it returned or the error it raised, and the first response
    that is an instance of [Exception], raised or returned, is the error
    [run_post_send] and [_send] raise; without one [run_post_send] returns.
    An error that is no instance of [Exception] is not collected: it leaves
    [_send] at once, and the receivers registered after its receiver are not
    called. *)
Theorem post_send_errors_collected_then_raised s payload response rs s1 :
  dispatch_and_parse signals self s = (Return (Some (payload, response, rs)), s1) ->
  exists st name,
    anymail_status (the_message s1) = Some st /\
    declared_esp_name self = Some name /\
    (forall os x,
       observed (post_send signals) (the_message s1) st name (ext (the_world s1)) = (os, x) ->
       raises_only_exceptions os ->
       match first_exception (numbered 0 (map response_of os)) with
       | Some e =>
           run_post_send signals self s1
             = (Raise e, post_sent s1 (length (post_send signals)) x) /\
           _send signals self s = (Raise e, post_sent s1 (length (post_send signals)) x)
       | None =>
           run_post_send signals self s1
             = (Return tt, post_sent s1 (length (post_send signals)) x)
       end) /\
    (forall before receiver rest os x e x',
       post_send signals = (before ++ receiver :: rest)%list ->
       observed before (the_message s1) st name (ext (the_world s1)) = (os, x) ->
       raises_only_exceptions os ->
       receiver (the_message s1) st name x = (Raise e, x') ->
       isinstance e "Exception" = false ->
       run_post_send signals self s1 = (Raise e, post_sent s1 (S (length before)) x') /\
       _send signals self s = (Raise e, post_sent s1 (S (length before)) x')).
Proof.
  intros Hparsed.
  destruct (dispatch_and_parse_Some _ _ _ _ _ Hparsed) as [[name Hname] [st0 Hst]].
  eexists _, name. split; [exact Hst |]. split; [assumption |].
  assert (Hraise : forall e s2, run_post_send signals self s1 = (Raise e, s2) ->
                     _send signals self s = (Raise e, s2)).
  { intros e s2 Hrun. rewrite (_send_finalize _ _ _ _ _ Hparsed). unfold finalize.
    now apply bind_Raise. }
  split.
  - intros os x Hos Honly.
    pose proof (run_post_send_dispatch s1 _ name Hst Hname) as Hrun.
    destruct s1 as [message [x1 l1]]. cbn in Hos.
    unfold in_world, zoom in Hrun. cbn [the_message the_world] in Hrun.
    rewrite (Signal_send_robust_observed _ 0 _ _ _ {| ext := x1; log := l1 |} _ _ Hos Honly) in Hrun.
    unfold post_sent. cbn [the_message the_world log ext] in *.
    destruct (first_exception _) as [e|]; [split; [| apply Hraise] |]; exact Hrun.
  - intros before receiver rest os x e x' Hsplit Hos Honly Hcall He.
    pose proof (run_post_send_dispatch s1 _ name Hst Hname) as Hrun.
    destruct s1 as [message [x1 l1]]. cbn in Hos, Hcall.
    unfold in_world, zoom in Hrun. cbn [the_message the_world] in Hrun.
    rewrite Hsplit,
      (Signal_send_robust_interrupted _ _ _ 0 _ _ _ {| ext := x1; log := l1 |} _ _ _ _
         Hos Honly Hcall He) in Hrun.
    unfold post_sent. cbn [the_message the_world log ext] in *.
    split; [| apply Hraise]; exact Hrun.
Qed.

(** C10.  An empty mapping from the provider's parser counts as all
    recipients refused.  The status it yields has the empty set of statuses,
    and with [ignore_recipient_status] unset [raise_for_recipient_status]
    raises AnymailRecipientsRefused on it; so does [_send] when the parser
    returned the empty mapping and [run_post_send] returned. *)
Theorem empty_recipient_status_is_refused {S} st response payload message (x : S) :
  ignore_recipient_status self = false ->
  statuses (set_recipient_status ∅ st) = Some ∅ /\
  raise_for_recipient_status self (set_recipient_status ∅ st) response payload message x
    = (Raise (AnymailRecipientsRefused ""), x) /\
  forall s payload' response' s1 s2,
    dispatch_and_parse signals self s = (Return (Some (payload', response', ∅)), s1) ->
    run_post_send signals self s1 = (Return tt, s2) ->
    _send signals self s = (Raise (AnymailRecipientsRefused ""), s2).
Proof.
  intros Hignore. split; [| split].
  - cbn. now rewrite map_to_list_empty.
  - unfold raise_for_recipient_status. rewrite Hignore. cbn.
    rewrite map_to_list_empty. reflexivity.
  - intros s payload' response' s1 s2 Hparsed Hpost.
    destruct (dispatch_and_parse_Some _ _ _ _ _ Hparsed) as [[name Hname] [st0 Hst]].
    destruct (run_post_send_Return _ _ Hpost) as [Hmsg _]. rewrite <- Hmsg in Hst.
    rewrite (_send_finalize _ _ _ _ _ Hparsed),
      (finalize_after_post_send _ _ _ _ _ Hpost Hst).
    unfold raise_for_recipient_status. rewrite Hignore. cbn.
    rewrite map_to_list_empty. reflexivity.
Qed.

(** *** Fail-silent mode *)

Lemma for_message_in_app before after num_sent (b : @batch_state W Response) :
  for_message_in signals self (before ++ after) num_sent b =
  bind (for_message_in signals self before num_sent)
       (fun n => for_message_in signals self after n) b.
Proof.
  revert num_sent b. induction before as [|message before IH]; intros num_sent b; simpl.
  - reflexivity.
  - rewrite bind_assoc. apply bind_ext. intros sent b'. apply IH.
Qed.

(** C3.  In fail-silent mode, an exception [_send] raises for a message of
    the batch is suppressed if and only if it is an AnymailError: if it is,
    the loop goes on with the next message and the count is unchanged; if it
    is not, it leaves the loop, and [send_messages] raises it to its caller
    once the session is released (or the error of a failing [close()] in its
    place). *)
Theorem fail_silently_suppresses_only_AnymailError
    before message rest (b b_open b0 b1 : @batch_state W Response) created num_sent e :
  fail_silently self = true ->
  in_batch_world (call call_open (open self)) b = (Return created, b_open) ->
  for_message_in signals self before 0 b_open = (Return num_sent, b0) ->
  send_message signals self message b0 = (Raise e, b1) ->
  let release :=
    if created then in_batch_world (call call_close (close self)) else ret tt in
  (isinstance e "AnymailError" = true ->
     for_message_in signals self (message :: rest) num_sent b0 =
       for_message_in signals self rest num_sent b1 /\
     send_messages signals self (before ++ message :: rest) b =
       try_finally (for_message_in signals self rest num_sent) release b1) /\
  (isinstance e "AnymailError" = false ->
     for_message_in signals self (message :: rest) num_sent b0 = (Raise e, b1) /\
     send_messages signals self (before ++ message :: rest) b =
       match release b1 with
       | (Return _, b2) => (Raise e, b2)
       | (Raise e', b2) => (Raise e', b2)
       end).
Proof.
  intros Hsilent Hopen Hbefore Hsend release.
  assert (Hbatch : send_messages signals self (before ++ message :: rest) b =
            try_finally (for_message_in signals self (message :: rest) num_sent) release b0).
  { unfold send_messages.
    replace (is_empty (before ++ message :: rest)) with false by now destruct before.
    erewrite bind_Return by eassumption.
    unfold try_finally. rewrite for_message_in_app.
    erewrite bind_Return by eassumption. reflexivity. }
  split; intros He.
  - assert (Hstep : for_message_in signals self (message :: rest) num_sent b0 =
              for_message_in signals self rest num_sent b1).
    { simpl. unfold bind, try_except. rewrite Hsend, He, Hsilent. reflexivity. }
    split; [assumption |]. rewrite Hbatch. unfold try_finally. now rewrite Hstep.
  - assert (Hstep : for_message_in signals self (message :: rest) num_sent b0 = (Raise e, b1)).
    { simpl. unfold bind, try_except. rewrite Hsend, He. reflexivity. }
    split; [assumption |]. rewrite Hbatch. unfold try_finally. rewrite Hstep.
    destruct (release b1) as [[[]|e'] b2]; reflexivity.
Qed.

End SendFacts.

(** ** The payload *)

Section PayloadFacts.

Context {Response PData : Type}.
Variable env : Environment.
Variable cls : @PayloadClass Response PData.

Implicit Types p : @BasePayload Response PData.
Implicit Types s : @construction Response PData.

Lemma in_self_Return {A} (c : M BasePayload A) s a p :
  c (self s) = (Return a, p) ->
  in_self c s = (Return a, {| self := p; setter_calls := setter_calls s |}).
Proof. intros H. unfold in_self, zoom. now rewrite H. Qed.

Lemma combined_value_spec r p :
  combined_value r p =
  (match combiner r with
   | Some combiner => combiner (default_of p (attr r)) (getattr (message p) (attr r) UNSET)
   | None => Return (getattr (message p) (attr r) UNSET)
   end, p).
Proof. unfold combined_value, bind, get, default_of. now destruct (combiner r). Qed.

Lemma setter_for_keeps r p p' named :
  setter_for env cls r p = (Return named, p') -> p' = p.
Proof.
  unfold setter_for, bind, get, getattr_method.
  destruct (String.eqb (attr r) "body").
  - destruct (String.eqb _ "html"); now intros [= _ <-].
  - destruct (assoc _ _); [now intros [= _ <-] |].
    destruct (defines cls _); [now intros [= _ <-] | discriminate].
Qed.

(** The loop body, once the combined value is known. *)
Lemma process_attr_combined r s value :
  combined_value r (self s) = (Return value, self s) ->
  process_attr env cls r s = deliver env cls r value s.
Proof.
  intros Hcombined. unfold process_attr.
  erewrite bind_Return by (apply in_self_Return; eassumption).
  now destruct s.
Qed.

Lemma deliver_present r s value value' p1 name setter :
  converted_value env cls r value (self s) = (Return value', p1) ->
  value' <> UNSET ->
  setter_for env cls r p1 = (Return (name, setter), p1) ->
  deliver env cls r value s =
    call_setter name setter value' {| self := p1; setter_calls := setter_calls s |}.
Proof.
  intros Hconverted Hpresent Hsetter. unfold deliver.
  erewrite bind_Return by (apply in_self_Return; eassumption).
  replace (is_not_UNSET value') with true by now destruct value'.
  erewrite bind_Return by (apply in_self_Return; eassumption).
  reflexivity.
Qed.

Lemma deliver_UNSET r s : deliver env cls r UNSET s = (Return tt, s).
Proof.
  unfold deliver.
  erewrite bind_Return by (apply in_self_Return; reflexivity).
  now destruct s.
Qed.

(** What [call_setter] does: the call is on record, and the setter has run
    on the value. *)
Lemma call_setter_spec name (setter : method) value s :
  call_setter name setter value s =
  match setter [value] (self s) with
  | (Return _, p) =>
      (Return tt, {| self := p; setter_calls := setter_calls s ++ [(name, value)] |})
  | (Raise e, p) =>
      (Raise e, {| self := p; setter_calls := setter_calls s ++ [(name, value)] |})
  end.
Proof.
  unfold call_setter, note_setter_call, bind, modify, in_self, zoom. cbn.
  destruct (setter [value] (self s)) as [[v|e] p]; reflexivity.
Qed.

(** C5.  A rule with the override strategy ([last]): when the message has
    a value for the attribute, the attribute's setter receives that value,
    converted; when it has none and the defaults have one, the setter
    receives the default, converted; when both are absent no setter is
    called and nothing changes.  "Converted": what the rule's converter
    returns for the value, the value itself when the rule has none.  "The
    setter receives": it runs on the converted value, on the payload as the
    converter left it, and the call is the next on the record. *)
Theorem override_rule r s value default_value :
  combiner r = Some last ->
  getattr (message (self s)) (attr r) UNSET = value ->
  default_of (self s) (attr r) = default_value ->
  (forall value' p1 name setter,
     value <> UNSET ->
     converted_value env cls r value (self s) = (Return value', p1) ->
     value' <> UNSET ->
     setter_for env cls r p1 = (Return (name, setter), p1) ->
     process_attr env cls r s = received name setter value' p1 (setter_calls s)) /\
  (forall value' p1 name setter,
     value = UNSET -> default_value <> UNSET ->
     converted_value env cls r default_value (self s) = (Return value', p1) ->
     value' <> UNSET ->
     setter_for env cls r p1 = (Return (name, setter), p1) ->
     process_attr env cls r s = received name setter value' p1 (setter_calls s)) /\
  (value = UNSET -> default_value = UNSET ->
     process_attr env cls r s = (Return tt, s)) /\
  (forall chosen p, chosen <> UNSET ->
     converted_value env cls r chosen p =
     match convert r with
     | Some (callable converter) => (converter chosen, p)
     | Some (method_named name) =>
         bind (getattr_method env cls name) (fun converter => converter [chosen]) p
     | None => (Return chosen, p)
     end).
Proof.
  intros Hlast Hvalue Hdefault.
  pose proof (combined_value_spec r (self s)) as Hcombined.
  rewrite Hlast, Hvalue, Hdefault in Hcombined. unfold last in Hcombined.
  assert (Hreceived : forall chosen value' p1 name setter,
    combined_value r (self s) = (Return chosen, self s) ->
    converted_value env cls r chosen (self s) = (Return value', p1) ->
    value' <> UNSET ->
    setter_for env cls r p1 = (Return (name, setter), p1) ->
    process_attr env cls r s = received name setter value' p1 (setter_calls s)).
  { intros chosen value' p1 name setter Hchosen Hconverted Hpresent Hsetter.
    rewrite (process_attr_combined r s chosen Hchosen).
    rewrite (deliver_present r s chosen value' p1 name setter Hconverted Hpresent Hsetter).
    apply call_setter_spec. }
  split; [| split; [| split]].
  - intros value' p1 name setter Hpresent. apply Hreceived.
    rewrite Hcombined. now destruct value.
  - intros value' p1 name setter -> Hpresent. apply Hreceived. now rewrite Hcombined.
  - intros -> ->. rewrite (process_attr_combined r s UNSET) by now rewrite Hcombined.
    apply deliver_UNSET.
  - intros chosen p Hpresent. unfold converted_value.
    replace (is_not_UNSET chosen) with true by now destruct chosen.
    destruct (convert r) as [[converter|name]|]; reflexivity.
Qed.

(** C6.  A rule with the merge strategy ([combine]): of two lists the
    combined value is the default's elements followed by the caller's; of two
    mappings it has every key of either, with the caller's value where both
    have the key; and when one side is absent it is the other side,
    unchanged. *)
Theorem merge_rule r p value default_value :
  combiner r = Some combine ->
  getattr (message p) (attr r) UNSET = value ->
  default_of p (attr r) = default_value ->
  (forall d v, default_value = PyList d -> value = PyList v ->
     combined_value r p = (Return (PyList (d ++ v)), p) /\
     forall x, x ∈ (d ++ v)%list <-> x ∈ d \/ x ∈ v) /\
  (forall (d v : gmap string pyval), default_value = PyDict d -> value = PyDict v ->
     exists m, combined_value r p = (Return (PyDict m), p) /\
       (forall k x, v !! k = Some x -> m !! k = Some x) /\
       (forall k x, d !! k = Some x -> v !! k = None -> m !! k = Some x) /\
       (forall k, m !! k = None <-> d !! k = None /\ v !! k = None)) /\
  (default_value = UNSET -> combined_value r p = (Return value, p)) /\
  (value = UNSET -> combined_value r p = (Return default_value, p)).
Proof.
  intros Hcombine Hvalue Hdefault.
  rewrite combined_value_spec, Hcombine, Hvalue, Hdefault.
  split; [| split; [| split]].
  - intros d v -> ->. split; [reflexivity | intros x; apply elem_of_app].
  - intros d v -> ->. exists (v ∪ d). split; [reflexivity |]. split; [| split].
    + intros k x Hk. now apply lookup_union_Some_l.
    + intros k x Hd Hv. now rewrite lookup_union_r.
    + intros k. rewrite lookup_union_None. tauto.
  - now intros ->.
  - intros ->. now destruct default_value.
Qed.

(** *** Unsupported features *)

Lemma unsupported_feature_spec feature p :
  unsupported_feature feature p =
  if ignore_unsupported_features (backend p) then (Return PyNone, p)
  else match payload_esp_name p with
       | Some esp_name =>
           (Raise (AnymailUnsupportedFeature (esp_name ++ " does not support " ++ feature)), p)
       | None => (Raise (AttributeError "esp_name"), p)
       end.
Proof.
  unfold unsupported_feature, bind, get.
  destruct (ignore_unsupported_features (backend p)); cbn; [reflexivity |].
  now destruct (payload_esp_name p).
Qed.

(** C7.  For each attribute the base class cannot express, the setter of a
    provider class that does not define its own is [unsupported_feature]:
    with [ignore_unsupported_features] unset it raises
    AnymailUnsupportedFeature, and with it set it returns without touching
    the payload, so that the attribute is dropped and the send goes on. *)
Theorem unsupported_feature_policy feature value p :
  In feature unsupported_by_default ->
  defines cls ("set_" ++ feature) = None ->
  exists setter,
    getattr_method env cls ("set_" ++ feature) p = (Return setter, p) /\
    setter [value] p = unsupported_feature feature p /\
    (ignore_unsupported_features (backend p) = false ->
       forall esp_name, payload_esp_name p = Some esp_name ->
       unsupported_feature feature p =
         (Raise (AnymailUnsupportedFeature (esp_name ++ " does not support " ++ feature)),
          p)) /\
    (ignore_unsupported_features (backend p) = true ->
       unsupported_feature feature p = (Return PyNone, p)).
Proof.
  intros Hin Hdef.
  assert (Hpolicy :
    (ignore_unsupported_features (backend p) = false ->
       forall esp_name, payload_esp_name p = Some esp_name ->
       unsupported_feature feature p =
         (Raise (AnymailUnsupportedFeature (esp_name ++ " does not support " ++ feature)),
          p)) /\
    (ignore_unsupported_features (backend p) = true ->
       unsupported_feature feature p = (Return PyNone, p))).
  { rewrite unsupported_feature_spec. split.
    - intros -> esp_name ->. reflexivity.
    - intros ->. reflexivity. }
  unfold unsupported_by_default in Hin. cbn [In] in Hin.
  repeat (destruct Hin as [<- | Hin];
    [ cbv beta iota delta [String.append] in Hdef;
      eexists; split; [reflexivity |]; split; [| exact Hpolicy];
      cbv beta delta [set_reply_to set_extra_headers set_metadata set_send_at set_tags
        set_track_clicks set_track_opens set_template_id set_merge_data
        set_merge_global_data set_esp_extra resolve unary];
      rewrite Hdef; reflexivity | ]).
  destruct Hin.
Qed.

(** *** The timestamp converter *)

Lemma aware_datetime_of_aware dt :
  is_naive dt = false -> aware_datetime_of env (PyDatetime dt) = Return (PyDatetime dt).
Proof. intros H. cbn. now rewrite H. Qed.

(** The last two lines of [aware_datetime], when they return. *)
Lemma localized_Return dt tz y :
  (if is_naive dt then
     match make_aware env dt tz with
     | Return aware => Return (PyDatetime aware)
     | Raise e => Raise e
     end
   else Return (PyDatetime dt)) = Return y ->
  exists aware, y = PyDatetime aware /\ is_naive aware = false /\
    replace_tzinfo aware None = replace_tzinfo dt None /\
    (is_naive dt = false -> aware = dt).
Proof.
  unfold make_aware. destruct (is_naive dt) eqn:Hnaive.
  - destruct (localize env dt tz); [discriminate |].
    intros [= <-]. eexists. split; [reflexivity |]. repeat split. discriminate.
  - intros [= <-]. eexists. split; [reflexivity |]. repeat split; assumption.
Qed.

(** C9.  [aware_datetime] leaves a zone-aware datetime as it is; hence
    converting a value it has already converted changes nothing; and a value
    that is neither a date nor a datetime nor accepted as a timestamp (the
    clock library answers TypeError or ValueError) is returned as it is. *)
Theorem aware_datetime_idempotent :
  (forall dt, is_naive dt = false ->
     aware_datetime_of env (PyDatetime dt) = Return (PyDatetime dt)) /\
  (forall x y, aware_datetime_of env x = Return y -> aware_datetime_of env y = Return y) /\
  (forall x e,
     (forall dt, x <> PyDatetime dt) -> (forall d, x <> PyDate d) ->
     utcfromtimestamp env x = Raise e ->
     isinstance e "TypeError" || isinstance e "ValueError" = true ->
     aware_datetime_of env x = Return x) /\
  (defines cls "aware_datetime" = None ->
     forall value p, aware_datetime env cls [value] p = (aware_datetime_of env value, p)).
Proof.
  split; [exact aware_datetime_of_aware |]. split; [| split].
  - intros x y H.
    assert (Hlocal : forall dt,
      (if is_naive dt then
         match make_aware env dt (get_current_timezone env) with
         | Return aware => Return (PyDatetime aware)
         | Raise e => Raise e
         end
       else Return (PyDatetime dt)) = Return y ->
      aware_datetime_of env y = Return y).
    { intros dt Hdt. apply localized_Return in Hdt as (aware & -> & Haware & _).
      now apply aware_datetime_of_aware. }
    destruct x; cbn in H;
      try (destruct (utcfromtimestamp env _) as [naive|e] eqn:Hclock;
           [ now apply (Hlocal (replace_tzinfo naive (Some utc)))
           | destruct (isinstance e "TypeError" || isinstance e "ValueError") eqn:Hcaught;
             [ injection H as <-; cbn; now rewrite Hclock, Hcaught | discriminate ] ]).
    + now apply (Hlocal (datetime_of_date d)).
    + now apply (Hlocal dt).
  - intros x e Hdt Hd Hclock Hcaught.
    destruct x; cbn; try (now rewrite Hclock, Hcaught).
    + now destruct (Hd d).
    + now destruct (Hdt dt).
  - intros Hdef value p. unfold aware_datetime, resolve. now rewrite Hdef.
Qed.

End PayloadFacts.

(** ** The properties on runs of the small provider *)

(** Equations between closed terms are checked by evaluating both sides. *)
Ltac computed :=
  lazymatch goal with
  | |- ?l = ?r => exact (@eq_refl _ l <: l = r)
  end.

Section Runs.

Import Provider Scenario.

Lemma all_refused_check (rs : gmap string AnymailRecipientStatus) :
  forallb (fun entry : string * AnymailRecipientStatus =>
             String.eqb (status (snd entry)) "invalid"
             || String.eqb (status (snd entry)) "rejected")
          (map_to_list rs) = true ->
  all_refused rs.
Proof.
  intros Hall address r Hr.
  apply elem_of_map_to_list, list_elem_of_In in Hr.
  rewrite forallb_forall in Hall. specialize (Hall _ Hr). cbn in Hall.
  apply orb_true_iff in Hall as [H | H]; apply String.eqb_eq in H; auto.
Qed.

Lemma c_rejected_all_refused : all_refused (verdicts c_rejected).
Proof. apply all_refused_check. computed. Qed.

(** C1, on a message to an address the provider rejects, with a post-send
    receiver that returns: refused under the strict backend, reported sent
    with the status attached under the lenient one. *)
Lemma _send_all_recipients_refused_witness :
  _send watching strict (sending to_c)
    = (Raise (AnymailRecipientsRefused ""),
       after to_c (verdicts c_rejected) c_rejected
         (dispatched ++ [call_post_send_receiver 0])) /\
  _send watching lenient (sending to_c)
    = (Return true,
       after to_c (verdicts c_rejected) c_rejected
         (dispatched ++ [call_post_send_receiver 0])) /\
  statuses (parsed (verdicts c_rejected) c_rejected) = Some {[ "rejected" ]}.
Proof.
  split; [| split].
  - rewrite (proj1 (_send_all_recipients_refused watching strict (sending to_c)
                      (built (config false false false) to_c) c_rejected (verdicts c_rejected)
                      (after to_c (verdicts c_rejected) c_rejected dispatched)
                      (parsed (verdicts c_rejected) c_rejected) "Provider"
                      [Return (inl PyNone)]
                      (ext (the_world (after to_c (verdicts c_rejected) c_rejected dispatched)))
                      ltac:(computed) c_rejected_all_refused eq_refl eq_refl eq_refl eq_refl)
               eq_refl).
    computed.
  - rewrite (proj1 (proj2 (_send_all_recipients_refused watching lenient (sending to_c)
                      (built (config false false true) to_c) c_rejected (verdicts c_rejected)
                      (after to_c (verdicts c_rejected) c_rejected dispatched)
                      (parsed (verdicts c_rejected) c_rejected) "Provider"
                      [Return (inl PyNone)]
                      (ext (the_world (after to_c (verdicts c_rejected) c_rejected dispatched)))
                      ltac:(computed) c_rejected_all_refused eq_refl eq_refl eq_refl eq_refl)
               eq_refl)).
    computed.
  - computed.
Defined.

(** C1, as first stated, fails when a post-send receiver raises an error or
    hands an exception instance back: the parsed statuses are all "rejected",
    yet with [ignore_recipient_status] set the send does not return True, and
    with it unset the error is not AnymailRecipientsRefused; in both cases it
    is the receiver's. *)
Lemma _send_all_refused_but_observer_raises :
  dispatch_and_parse failing_observer lenient (sending to_c)
    = (Return (Some (built (config false false true) to_c, c_rejected, verdicts c_rejected)),
       after to_c (verdicts c_rejected) c_rejected dispatched) /\
  all_refused (verdicts c_rejected) /\
  ignore_recipient_status lenient = true /\
  fst (_send failing_observer lenient (sending to_c)) = Raise observer_error /\
  fst (_send failing_observer lenient (sending to_c)) <> Return true /\
  ignore_recipient_status strict = false /\
  fst (_send failing_observer strict (sending to_c)) = Raise observer_error /\
  fst (_send failing_observer strict (sending to_c)) <> Raise (AnymailRecipientsRefused "") /\
  fst (_send handing_back lenient (sending to_c)) = Raise handed_back /\
  fst (_send handing_back strict (sending to_c)) = Raise handed_back.
Proof.
  assert (Hlenient : fst (_send failing_observer lenient (sending to_c))
                     = Raise observer_error) by computed.
  assert (Hstrict : fst (_send failing_observer strict (sending to_c))
                    = Raise observer_error) by computed.
  repeat split; try computed.
  - exact c_rejected_all_refused.
  - rewrite Hlenient. discriminate.
  - rewrite Hstrict. discriminate.
Qed.

(** C2, on a batch whose second message raises with fail-silent mode off:
    the exception leaves [send_messages], and [close] has been called once,
    last. *)
Example send_messages_closes_on_error :
  let run := send_messages no_receivers strict [to_a_b; tagged; to_c] (batch offline) in
  fst run = Raise (AnymailUnsupportedFeature "Provider does not support tags") /\
  batch_log (snd run) =
    [call_open; call_build_message_payload; call_post_to_esp; call_parse_recipient_status;
     call_build_message_payload; call_close] /\
  closes (batch_log (snd run)) = 1%nat.
Proof. cbv zeta. repeat split; computed. Qed.

(** C3, on two batches in fail-silent mode: the unsupported tags of the
    second message are an AnymailError, and the batch goes on to count one
    message sent; the provider's missing [add_attachment] is not, and the
    NotImplementedError leaves [send_messages]. *)
Lemma fail_silently_suppresses_only_AnymailError_witness :
  fst (send_messages no_receivers silent ([to_a_b] ++ tagged :: [to_c]) (batch offline))
    = Return 1%nat /\
  fst (send_messages no_receivers silent ([to_a_b] ++ with_attachment :: [to_c])
         (batch offline))
    = Raise (NotImplementedError
               "provider.backend.ProviderPayload must implement add_attachment or set_attachments").
Proof.
  pose (b_open := snd (in_batch_world (call call_open (open silent)) (batch offline))).
  pose (b0 := snd (for_message_in no_receivers silent [to_a_b] 0 b_open)).
  split.
  - pose (b1 := snd (send_message no_receivers silent tagged b0)).
    destruct (fail_silently_suppresses_only_AnymailError no_receivers silent
                [to_a_b] tagged [to_c] (batch offline) b_open b0 b1 true 1%nat
                (AnymailUnsupportedFeature "Provider does not support tags")
                eq_refl) as [Hsuppressed _]; [computed .. |].
    destruct (Hsuppressed eq_refl) as [_ Hbatch].
    rewrite Hbatch. computed.
  - pose (b1 := snd (send_message no_receivers silent with_attachment b0)).
    destruct (fail_silently_suppresses_only_AnymailError no_receivers silent
                [to_a_b] with_attachment [to_c] (batch offline) b_open b0 b1 true 1%nat
                (NotImplementedError
                   "provider.backend.ProviderPayload must implement add_attachment or set_attachments")
                eq_refl) as [_ Hraised]; [computed .. |].
    destruct (Hraised eq_refl) as [_ Hbatch].
    rewrite Hbatch. computed.
Defined.

(** C4, on a message without recipients. *)
Lemma _send_without_recipients_witness :
  _send no_receivers strict (sending to_nobody)
    = (Return false,
       {| the_message := set_anymail_status (Some AnymailStatus_new) to_nobody;
          the_world := online |}) /\
  log online = [].
Proof.
  destruct (_send_without_recipients no_receivers strict to_nobody online
              {| the_message := set_anymail_status (Some AnymailStatus_new) to_nobody;
                 the_world := online |}) as [Hsend _]; [computed .. |].
  split; [exact Hsend | reflexivity].
Defined.

(** C8, on a message whose only recipient was rejected.  Of two post-send
    receivers the first raises a ValueError: both are called, and [_send]
    raises the first one's error.  When the first raises a KeyboardInterrupt
    instead, that leaves [_send] and the second is not called. *)
Lemma post_send_errors_collected_then_raised_witness :
  _send failing_observer strict (sending to_c)
    = (Raise observer_error,
       after to_c (verdicts c_rejected) c_rejected
         (dispatched ++ [call_post_send_receiver 0; call_post_send_receiver 1])) /\
  _send interrupted_observer strict (sending to_c)
    = (Raise interrupt,
       after to_c (verdicts c_rejected) c_rejected
         (dispatched ++ [call_post_send_receiver 0])).
Proof.
  split.
  - destruct (post_send_errors_collected_then_raised failing_observer strict (sending to_c)
                (built (config false false false) to_c) c_rejected (verdicts c_rejected)
                (after to_c (verdicts c_rejected) c_rejected dispatched))
      as (st & name & Hst & Hname & Hcollected & _); [computed |].
    change (Some (parsed (verdicts c_rejected) c_rejected) = Some st) in Hst.
    injection Hst as <-.
    change (Some "Provider" = Some name) in Hname. injection Hname as <-.
    specialize (Hcollected [Raise observer_error; Return (inl PyNone)]
                  (ext (the_world (after to_c (verdicts c_rejected) c_rejected dispatched)))
                  eq_refl).
    change (first_exception _) with (Some observer_error) in Hcollected.
    destruct Hcollected as [_ Hsend].
    + intros e [[= <-] | [[=] | []]]. reflexivity.
    + rewrite Hsend. computed.
  - destruct (post_send_errors_collected_then_raised interrupted_observer strict
                (sending to_c)
                (built (config false false false) to_c) c_rejected (verdicts c_rejected)
                (after to_c (verdicts c_rejected) c_rejected dispatched))
      as (st & name & Hst & Hname & _ & Hinterrupted); [computed |].
    change (Some (parsed (verdicts c_rejected) c_rejected) = Some st) in Hst.
    injection Hst as <-.
    change (Some "Provider" = Some name) in Hname. injection Hname as <-.
    destruct (Hinterrupted [] (fun _ _ _ w => (Raise interrupt, w))
                [fun _ _ _ w => (Return (inl PyNone), w)] []
                (ext (the_world (after to_c (verdicts c_rejected) c_rejected dispatched)))
                interrupt
                (ext (the_world (after to_c (verdicts c_rejected) c_rejected dispatched)))
                eq_refl eq_refl) as [_ Hsend].
    + intros e [].
    + reflexivity.
    + reflexivity.
    + rewrite Hsend. computed.
Defined.

(** C8, as first stated, fails on two post-send receivers of which the first
    returns an exception instance and the second raises an error: both are
    called, and the error [_send] raises is the instance the first returned,
    which no receiver raised, not the error of the second. *)
Lemma _send_raises_returned_exception :
  observed (post_send returning_observer)
           (the_message (after to_c (verdicts c_rejected) c_rejected dispatched))
           (parsed (verdicts c_rejected) c_rejected) "Provider"
           (ext (the_world (after to_c (verdicts c_rejected) c_rejected dispatched)))
    = ([Return (inr handed_back); Raise observer_error],
       ext (the_world (after to_c (verdicts c_rejected) c_rejected dispatched))) /\
  _send returning_observer strict (sending to_c)
    = (Raise handed_back,
       after to_c (verdicts c_rejected) c_rejected
         (dispatched ++ [call_post_send_receiver 0; call_post_send_receiver 1])) /\
  handed_back <> observer_error.
Proof.
  split; [reflexivity | split; [computed | discriminate]].
Qed.

(** C10, on a provider whose parser returns the empty mapping. *)
Lemma empty_recipient_status_is_refused_witness :
  statuses (set_recipient_status ∅ (@AnymailStatus_new response)) = Some ∅ /\
  raise_for_recipient_status mute (set_recipient_status ∅ AnymailStatus_new)
      a_b_sent (built (config false false false) to_a_b) to_a_b tt
    = (Raise (AnymailRecipientsRefused ""), tt) /\
  _send no_receivers mute (sending to_a_b)
    = (Raise (AnymailRecipientsRefused ""), after to_a_b ∅ a_b_sent dispatched).
Proof.
  destruct (empty_recipient_status_is_refused no_receivers mute AnymailStatus_new
              a_b_sent (built (config false false false) to_a_b) to_a_b tt eq_refl)
    as (Hempty & Hraise & Hsend).
  split; [exact Hempty | split; [exact Hraise |]].
  apply (Hsend (sending to_a_b) (built (config false false false) to_a_b) a_b_sent
               (after to_a_b ∅ a_b_sent dispatched) (after to_a_b ∅ a_b_sent dispatched));
    computed.
Defined.

(** C5, on the scheduled-send time, an override rule: given on the message,
    given in the defaults only, and given nowhere.  The date 2024-03-01 is
    converted to midnight of that day in the current time zone, and the
    provider's [set_send_at] has stored what it received. *)
Lemma override_rule_witness :
  process_attr env payload_class send_at_rule (constructing scheduled [])
    = (Return tt, sent_at (constructing scheduled [])) /\
  process_attr env payload_class send_at_rule (constructing [] scheduled)
    = (Return tt, sent_at (constructing [] scheduled)) /\
  data (self (sent_at (constructing [] scheduled)))
    = [("send_at", PyDatetime local_midnight)] /\
  setter_calls (sent_at (constructing [] scheduled))
    = [("set_send_at", PyDatetime local_midnight)] /\
  process_attr env payload_class send_at_rule (constructing [] [])
    = (Return tt, constructing [] []).
Proof.
  split; [| split; [| split; [| split]]].
  - destruct (override_rule env payload_class send_at_rule (constructing scheduled [])
                (PyDate march_first) UNSET eq_refl)
      as (Hcaller & _ & _ & _); [computed .. |].
    rewrite (Hcaller (PyDatetime local_midnight) (self (constructing scheduled []))
               "set_send_at" (unary (set_field "send_at")));
      first [computed | discriminate].
  - destruct (override_rule env payload_class send_at_rule (constructing [] scheduled)
                UNSET (PyDate march_first) eq_refl)
      as (_ & Hdefault & _ & _); [computed .. |].
    rewrite (Hdefault (PyDatetime local_midnight) (self (constructing [] scheduled))
               "set_send_at" (unary (set_field "send_at")));
      first [computed | discriminate].
  - reflexivity.
  - reflexivity.
  - destruct (override_rule env payload_class send_at_rule (constructing [] [])
                UNSET UNSET eq_refl)
      as (_ & _ & Hnone & _); [computed .. |].
    exact (Hnone eq_refl eq_refl).
Defined.

(** C6, on the tags, a merge rule over lists, and the metadata, a merge rule
    over mappings. *)
Lemma merge_rule_witness :
  combined_value tags_rule (self (constructing [("tags", tag_x)] [("tags", tag_y)]))
    = (Return (PyList [PyStr "y"; PyStr "x"]),
       self (constructing [("tags", tag_x)] [("tags", tag_y)])) /\
  exists m,
    combined_value metadata_rule
      (self (constructing [("metadata", PyDict message_metadata)]
                          [("metadata", PyDict default_metadata)]))
      = (Return (PyDict m),
         self (constructing [("metadata", PyDict message_metadata)]
                            [("metadata", PyDict default_metadata)])) /\
    m !! "campaign" = Some (PyStr "spring") /\
    m !! "source" = Some (PyStr "message").
Proof.
  split.
  - refine (proj1 (proj1 (merge_rule tags_rule
                            (self (constructing [("tags", tag_x)] [("tags", tag_y)]))
                            tag_x tag_y eq_refl _ _)
                     [PyStr "y"] [PyStr "x"] eq_refl eq_refl)); computed.
  - destruct (proj1 (proj2 (merge_rule metadata_rule
                              (self (constructing [("metadata", PyDict message_metadata)]
                                                  [("metadata", PyDict default_metadata)]))
                              (PyDict message_metadata) (PyDict default_metadata)
                              eq_refl ltac:(computed) ltac:(computed)))
                default_metadata message_metadata eq_refl eq_refl)
      as (m & Hcombined & Hcaller & Hdefault & _).
    exists m. split; [exact Hcombined | split].
    + apply Hdefault; computed.
    + apply Hcaller; computed.
Defined.

(** C7, on a message with tags sent through the provider, which has no
    [set_tags] of its own: in permissive mode the setter returns without
    touching the payload, the send succeeds and the payload has no tags;
    otherwise the send raises AnymailUnsupportedFeature. *)
Lemma unsupported_feature_policy_witness :
  (exists setter,
     getattr_method env payload_class "set_tags" (self (constructing [("tags", tag_x)] []))
       = (Return setter, self (constructing [("tags", tag_x)] [])) /\
     setter [tag_x] (self (constructing [("tags", tag_x)] []))
       = (Return PyNone, self (constructing [("tags", tag_x)] []))) /\
  _send no_receivers permissive (sending tagged)
    = (Return true, after tagged (verdicts a_sent) a_sent dispatched) /\
  data (built (config false true false) tagged)
    = [("from", PyStr "from@example.com"); ("to", PyStr "a@example.com");
       ("subject", PyStr "Subject"); ("text", PyStr "Body")] /\
  fst (_send no_receivers strict (sending tagged))
    = Raise (AnymailUnsupportedFeature "Provider does not support tags").
Proof.
  split; [| repeat split; computed].
  assert (Hin : In "tags" unsupported_by_default)
    by (unfold unsupported_by_default; cbn [In]; do 4 right; left; reflexivity).
  destruct (unsupported_feature_policy env payload_class "tags" tag_x
              (self (constructing [("tags", tag_x)] [])) Hin eq_refl)
    as (setter & Hget & Hcall & _ & Hdrop).
  exists setter. split; [exact Hget |].
  rewrite Hcall. exact (Hdrop eq_refl).
Defined.

(** C9, on a date, on the datetime it converts to, and on a string. *)
Lemma aware_datetime_idempotent_witness :
  aware_datetime_of env (PyDate march_first) = Return (PyDatetime local_midnight) /\
  aware_datetime_of env (PyDatetime local_midnight) = Return (PyDatetime local_midnight) /\
  aware_datetime_of env (PyStr "tomorrow") = Return (PyStr "tomorrow").
Proof.
  destruct (aware_datetime_idempotent env payload_class) as (_ & Hagain & Hother & _).
  assert (Hdate : aware_datetime_of env (PyDate march_first)
                  = Return (PyDatetime local_midnight)) by computed.
  split; [exact Hdate | split].
  - exact (Hagain _ _ Hdate).
  - apply (Hother (PyStr "tomorrow") (TypeError "an integer is required"));
      first [computed | discriminate].
Defined.

End Runs.

(** * Further properties of the backend *)

Section BatchFacts.

Context {W Payload Response : Type}.
Variable signals : @Signals W Response.
Variable self : @Backend W Payload Response.

Implicit Types b : @batch_state W Response.

(** The loop, when it returns: each message has been through [_send], in the
    world the message before left; the count has gone up by the number of
    runs that returned True; a run that raised, raised an AnymailError in
    fail-silent mode; and the message objects are on the list of those
    processed, as their runs left them. *)
Lemma for_message_in_Return email_messages num_sent b n b' :
  for_message_in signals self email_messages num_sent b = (Return n, b') ->
  n = (num_sent
       + length (List.filter reported_sent
                   (send_each signals self email_messages (batch_world b))))%nat /\
  processed b' =
    (processed b ++ map (fun run => the_message (snd run))
                        (send_each signals self email_messages (batch_world b)))%list /\
  Forall (fun run => forall e, fst run = Raise e ->
            isinstance e "AnymailError" = true /\ fail_silently self = true)
         (send_each signals self email_messages (batch_world b)).
Proof.
  revert num_sent b. induction email_messages as [|message rest IH]; intros num_sent b; simpl.
  - intros [= -> ->]. cbn. rewrite app_nil_r. split; [lia | split; [reflexivity | constructor]].
  - unfold bind at 1, try_except, send_message.
    destruct (_send signals self {| the_message := message; the_world := batch_world b |})
      as [[sent|e] s1] eqn:Hrun; cbn [fst snd].
    + intros H. apply IH in H as (Hn & Hprocessed & Hraised). cbn in Hn, Hprocessed, Hraised.
      split; [| split].
      * unfold reported_sent at 1. cbn [fst]. destruct sent; cbn [length]; lia.
      * rewrite Hprocessed, <- app_assoc. reflexivity.
      * constructor; [discriminate | exact Hraised].
    + destruct (isinstance e "AnymailError") eqn:Hanticipated; [| discriminate].
      destruct (fail_silently self) eqn:Hsilent; [| discriminate].
      intros H. apply IH in H as (Hn & Hprocessed & Hraised). cbn in Hn, Hprocessed, Hraised.
      split; [| split].
      * unfold reported_sent at 1. cbn [fst]. exact Hn.
      * rewrite Hprocessed, <- app_assoc. reflexivity.
      * constructor; [| exact Hraised]. cbn. intros e' [= <-]. now split.
Qed.

Lemma send_each_length email_messages (w : @world W) :
  length (send_each signals self email_messages w) = length email_messages.
Proof.
  revert w. induction email_messages as [|message rest IH]; intros w; simpl;
    [reflexivity | now rewrite IH].
Qed.

(** X1.  When [send_messages] returns: for an empty batch it has done nothing
    and returns 0; otherwise [open()] returned, every message of the batch
    has been through [_send] once, in order, each in the world the one
    before left; the number returned is the number of those runs that
    returned True, at most the number of messages; a run that raised, raised
    an AnymailError in fail-silent mode; and the message objects are as
    their runs left them. *)
Theorem send_messages_count email_messages b n b' :
  send_messages signals self email_messages b = (Return n, b') ->
  match email_messages with
  | [] => n = 0%nat /\ b' = b
  | _ :: _ =>
      exists created x,
        open self (ext (batch_world b)) = (Return created, x) /\
        let runs :=
          send_each signals self email_messages
            {| ext := x; log := (batch_log b ++ [call_open])%list |} in
        n = length (List.filter reported_sent runs) /\
        (n <= length email_messages)%nat /\
        length runs = length email_messages /\
        processed b' = (processed b ++ map (fun run => the_message (snd run)) runs)%list /\
        Forall (fun run => forall e, fst run = Raise e ->
                  isinstance e "AnymailError" = true /\ fail_silently self = true) runs
  end.
Proof.
  unfold send_messages. destruct email_messages as [|message rest].
  { cbn. now intros [= <- <-]. }
  cbn [is_empty]. intros H.
  apply bind_Return_inv in H as (created & b1 & Hopen & H).
  unfold in_batch_world, zoom, call in Hopen.
  destruct (open self (ext (batch_world b))) as [r x] eqn:Hopened.
  injection Hopen as -> <-.
  unfold try_finally in H.
  destruct (for_message_in _ _ _ _ _) as [r b2] eqn:Hloop.
  assert (Hb2 : forall b3, (if created then in_batch_world (call call_close (close self))
                            else ret tt) b2 = (Return tt, b3) ->
                           processed b3 = processed b2).
  { intros b3. destruct created.
    - unfold in_batch_world, zoom. destruct (call _ _ _) as [r' w].
      now intros [= _ <-].
    - now intros [= <-]. }
  match type of H with (let (_, _) := ?c in _) = _ =>
    destruct c as [[[]|e] b3] eqn:Hrelease; [| discriminate] end.
  injection H as -> <-.
  apply for_message_in_Return in Hloop as (Hn & Hprocessed & Hraised).
  cbn [batch_world processed] in Hn, Hprocessed, Hraised.
  exists created, x. split; [reflexivity |]. cbv zeta.
  split; [exact Hn |]. split; [| split; [apply send_each_length | split]].
  - rewrite Hn. cbn [Nat.add].
    etransitivity; [apply List.filter_length_le | now rewrite send_each_length].
  - rewrite (Hb2 _ eq_refl). exact Hprocessed.
  - exact Hraised.
Qed.

(** In fail-silent mode the loop lets no AnymailError out. *)
Lemma for_message_in_silent email_messages num_sent b e b' :
  fail_silently self = true ->
  for_message_in signals self email_messages num_sent b = (Raise e, b') ->
  isinstance e "AnymailError" = false.
Proof.
  intros Hsilent. revert num_sent b.
  induction email_messages as [|message rest IH]; intros num_sent b; simpl;
    [discriminate |].
  unfold bind, try_except.
  destruct (send_message signals self message b) as [[sent|e0] b1].
  - apply IH.
  - destruct (isinstance e0 "AnymailError") eqn:He0.
    + rewrite Hsilent. apply IH.
    + now intros [= <- _].
Qed.

(** X2.  In fail-silent mode an AnymailError never leaves [send_messages]
    from the sending of a message: an exception the call raises is not an
    AnymailError, unless it is the one [open()] or [close()] raised. *)
Theorem send_messages_silent email_messages b e b' :
  fail_silently self = true ->
  send_messages signals self email_messages b = (Raise e, b') ->
  isinstance e "AnymailError" = false \/
  fst (open self (ext (batch_world b))) = Raise e \/
  exists x, fst (close self x) = Raise e.
Proof.
  intros Hsilent. unfold send_messages.
  destruct email_messages as [|message rest]; [discriminate |].
  cbn [is_empty]. unfold bind at 1, in_batch_world at 1, zoom, call.
  destruct (open self (ext (batch_world b))) as [[created|e0] x] eqn:Hopen; cbn [fst].
  - unfold try_finally.
    destruct (for_message_in _ _ _ _ _) as [r b1] eqn:Hloop.
    destruct created.
    + unfold in_batch_world, zoom, call.
      destruct (close self (ext (batch_world b1))) as [[[]|e1] x'] eqn:Hclose.
      * intros [= -> _]. left. eapply for_message_in_silent; eassumption.
      * intros [= -> _]. right. right. exists (ext (batch_world b1)). now rewrite Hclose.
    + cbn. intros [= -> _]. left. eapply for_message_in_silent; eassumption.
  - intros [= -> _]. right. now left.
Qed.

(** X3.  With fail-silent mode off, the first message whose [_send] raises,
    whatever the exception, ends the batch: [send_messages] raises (the count
    of the messages sent before is not returned), no later message is
    attempted, and the only call that follows is the [close()] of a session
    this call opened. *)
Theorem send_messages_aborts_on_error
    before message rest (b b_open b0 b1 : @batch_state W Response) created num_sent e :
  fail_silently self = false ->
  in_batch_world (call call_open (open self)) b = (Return created, b_open) ->
  for_message_in signals self before 0 b_open = (Return num_sent, b0) ->
  send_message signals self message b0 = (Raise e, b1) ->
  let run := send_messages signals self (before ++ message :: rest) b in
  (exists e', fst run = Raise e') /\
  processed (snd run) = processed b1 /\
  batch_log (snd run) = (batch_log b1 ++ (if created then [call_close] else []))%list /\
  (created = false -> run = (Raise e, b1)).
Proof.
  intros Hloud Hopen Hbefore Hsend run.
  assert (Hstep : for_message_in signals self (message :: rest) num_sent b0 = (Raise e, b1)).
  { simpl. unfold bind, try_except. rewrite Hsend, Hloud.
    now destruct (isinstance e "AnymailError"). }
  assert (Hrun : run = try_finally (fun b => (Raise e, b1))
                         (if created then in_batch_world (call call_close (close self))
                          else ret tt) b0).
  { subst run. unfold send_messages.
    replace (is_empty (before ++ message :: rest)) with false by now destruct before.
    erewrite bind_Return by eassumption.
    unfold try_finally. rewrite for_message_in_app.
    erewrite bind_Return by eassumption. now rewrite Hstep. }
  rewrite Hrun. unfold try_finally. destruct created.
  - unfold in_batch_world, zoom, call.
    destruct (close self (ext (batch_world b1))) as [[[]|e'] x]; cbn;
      (split; [eauto |]); (split; [reflexivity |]); (split; [reflexivity | discriminate]).
  - cbn. split; [eauto |]. split; [reflexivity |]. split; [| reflexivity].
    unfold batch_log. now rewrite app_nil_r.
Qed.

End BatchFacts.

Section SendMoreFacts.

Context {W Payload Response : Type}.
Variable signals : @Signals W Response.
Variable self : @Backend W Payload Response.

Implicit Types s : @send_state W Response.

Local Abbreviation fresh message w :=
  ({| the_message := set_anymail_status (Some AnymailStatus_new) message;
      the_world := w |} : @send_state W Response).

Lemma in_world_call {A} (ev : event) (c : M W A) s r x :
  c (ext (the_world s)) = (r, x) ->
  in_world (call ev c) s =
    (r, {| the_message := the_message s;
           the_world := {| ext := x; log := (log (the_world s) ++ [ev])%list |} |}).
Proof. intros H. unfold in_world, zoom, call. now rewrite H. Qed.

Lemma _send_begins message w :
  _send signals self {| the_message := message; the_world := w |} =
  bind (run_pre_send signals self)
    (fun proceed =>
       if negb proceed then ret false else
       bind read_message (fun message =>
       if is_empty (recipients message) then ret false else
       bind (in_world (call call_build_message_payload
               (build_message_payload self message (send_defaults self))))
         (fun payload =>
       bind read_message (fun message =>
       bind (in_world (call call_post_to_esp (post_to_esp self payload message)))
         (fun response =>
       bind (update_anymail_status (set_esp_response response)) (fun _ =>
       bind read_message (fun message =>
       bind (in_world (call call_parse_recipient_status
               (parse_recipient_status self response payload message)))
         (fun recipient_status =>
       bind (update_anymail_status (set_recipient_status recipient_status)) (fun _ =>
       bind (run_post_send signals self) (fun _ =>
       bind read_anymail_status (fun st =>
       bind read_message (fun message =>
       bind (raise_for_recipient_status self st response payload message) (fun _ =>
       ret true)))))))))))))
    (fresh message w).
Proof. reflexivity. Qed.

(** X4.  When the dispatch of the pre-send signal ends with an exception:
    if it is an AnymailCancelSend, [_send] returns False without error, and
    otherwise [_send] raises it.  Either way nothing has been called but
    pre-send receivers: no payload is built and nothing is posted. *)
Theorem _send_pre_send_exception message w name e s1 :
  declared_esp_name self = Some name ->
  Signal_send (pre_send signals) 0 name (fresh message w) = (Raise e, s1) ->
  _send signals self {| the_message := message; the_world := w |}
    = (if isinstance e "AnymailCancelSend" then Return false else Raise e, s1) /\
  exists evs, send_log s1 = (log w ++ evs)%list /\ Forall by_pre_send_receiver evs.
Proof.
  intros Hname Hsignal. split.
  - rewrite _send_begins. unfold bind at 1, run_pre_send, try_except.
    erewrite bind_Return by (apply esp_name_of; eassumption).
    erewrite bind_Raise by eassumption.
    now destruct (isinstance e "AnymailCancelSend").
  - destruct (appends_Signal_send by_pre_send_receiver (pre_send signals) 0 name
                (fun j => ex_intro _ j eq_refl) (fresh message w)) as (evs & Hlog & Hevs).
    rewrite Hsignal in Hlog. now exists evs.
Qed.

(** X8.  A send whose payload cannot be built, or whose post to the provider
    fails, raises that error at once: after a failing
    [build_message_payload] nothing is posted, after a failing [post_to_esp]
    nothing is parsed and no post-send receiver is called, and the message
    is as the pre-send receivers left it, with no response on its status. *)
Theorem _send_dispatch_failure message w s1 rb x :
  run_pre_send signals self (fresh message w) = (Return true, s1) ->
  is_empty (recipients (the_message s1)) = false ->
  build_message_payload self (the_message s1) (send_defaults self) (ext (the_world s1))
    = (rb, x) ->
  match rb with
  | Raise e =>
      _send signals self {| the_message := message; the_world := w |}
        = (Raise e,
           {| the_message := the_message s1;
              the_world := {| ext := x;
                              log := (send_log s1 ++ [call_build_message_payload])%list |} |})
  | Return payload =>
      forall e x',
        post_to_esp self payload (the_message s1) x = (Raise e, x') ->
        _send signals self {| the_message := message; the_world := w |}
          = (Raise e,
             {| the_message := the_message s1;
                the_world :=
                  {| ext := x';
                     log := (send_log s1
                             ++ [call_build_message_payload; call_post_to_esp])%list |} |})
  end.
Proof.
  intros Hpre Hrecipients Hbuild. rewrite _send_begins.
  erewrite bind_Return by eassumption. cbn [negb].
  erewrite bind_Return by reflexivity. rewrite Hrecipients.
  destruct rb as [payload | e].
  - intros e x' Hpost.
    erewrite bind_Return by (apply in_world_call; eassumption).
    erewrite bind_Return by reflexivity.
    erewrite bind_Raise by (apply in_world_call; cbn; eassumption).
    cbn. unfold send_log. now rewrite <- app_assoc.
  - erewrite bind_Raise by (apply in_world_call; eassumption). reflexivity.
Qed.

Lemma subset_all_refused (rs : gmap string AnymailRecipientStatus) :
  (list_to_set (status <$> (map_to_list rs).*2) : gset string) ⊆ refused ->
  all_refused rs.
Proof.
  intros Hsub address r Hr.
  assert (Hin : status r ∈ (list_to_set (status <$> (map_to_list rs).*2) : gset string)).
  { apply elem_of_list_to_set, list_elem_of_fmap. exists r. split; [reflexivity |].
    apply list_elem_of_fmap. exists (address, r). split; [reflexivity |].
    now apply elem_of_map_to_list. }
  apply Hsub in Hin. unfold refused in Hin.
  apply elem_of_union in Hin as [Hin | Hin]; apply elem_of_singleton in Hin; auto.
Qed.

Lemma raise_for_recipient_status_state {S} st response payload message (x : S) :
  snd (raise_for_recipient_status self st response payload message x) = x.
Proof.
  unfold raise_for_recipient_status. destruct (negb _); [| reflexivity].
  destruct (statuses st); [| reflexivity]. now destruct (bool_decide _).
Qed.

(** The outcome of a send that has reached the parsed status and whose
    [run_post_send] returned. *)
Lemma _send_checked s payload response rs s1 s2 :
  dispatch_and_parse signals self s = (Return (Some (payload, response, rs)), s1) ->
  run_post_send signals self s1 = (Return tt, s2) ->
  (exists st, anymail_status (the_message s2) = Some st /\
     statuses st = Some (list_to_set (status <$> (map_to_list rs).*2)) /\
     recipients_status st = rs /\ esp_response st = Some response) /\
  _send signals self s =
    (if negb (ignore_recipient_status self)
        && bool_decide ((list_to_set (status <$> (map_to_list rs).*2) : gset string)
                        ⊆ refused)
     then Raise (AnymailRecipientsRefused "") else Return true, s2).
Proof.
  intros Hparsed Hpost.
  destruct (dispatch_and_parse_Some _ _ _ _ _ _ _ Hparsed) as [[name Hname] [st0 Hst]].
  destruct (run_post_send_Return signals self _ _ Hpost) as [Hmsg _].
  rewrite <- Hmsg in Hst.
  split; [eexists; split; [eassumption | cbn; auto] |].
  rewrite (_send_finalize _ _ _ _ _ _ _ Hparsed),
    (finalize_after_post_send _ _ _ _ _ _ _ Hpost Hst).
  unfold raise_for_recipient_status. destruct (ignore_recipient_status self); cbn;
    [reflexivity |].
  now destruct (bool_decide _).
Qed.

(** X6.  A send that has reached the parsed status and whose post-send
    receivers all return, none of them an instance of [Exception], returns
    True as soon as one recipient is neither "invalid" nor "rejected", and in
    any case when [ignore_recipient_status] is set: a partial refusal is a
    successful send. *)
Theorem _send_partly_refused s payload response rs s1 st name os x :
  dispatch_and_parse signals self s = (Return (Some (payload, response, rs)), s1) ->
  anymail_status (the_message s1) = Some st ->
  declared_esp_name self = Some name ->
  observed (post_send signals) (the_message s1) st name (ext (the_world s1)) = (os, x) ->
  forallb quiet os = true ->
  ignore_recipient_status self = true \/
    (exists address r, rs !! address = Some r /\
       status r <> "invalid" /\ status r <> "rejected") ->
  _send signals self s = (Return true, post_sent s1 (length (post_send signals)) x).
Proof.
  intros Hparsed Hst Hname Hos Hquiet Hsome.
  pose proof (run_post_send_quiet signals self s1 st name os x Hst Hname Hos Hquiet) as Hpost.
  destruct (_send_checked _ _ _ _ _ _ Hparsed Hpost) as [_ ->].
  destruct Hsome as [-> | (address & r & Hr & Hinvalid & Hrejected)]; [reflexivity |].
  rewrite bool_decide_eq_false_2; [now rewrite andb_false_r |].
  intros Hsub. destruct (subset_all_refused rs Hsub address r Hr); contradiction.
Qed.

End SendMoreFacts.

Section SendTrace.

Context {W Payload Response : Type}.
Variable signals : @Signals W Response.
Variable self : @Backend W Payload Response.

Implicit Types s : @send_state W Response.

Lemma in_world_call_inv {A} (ev : event) (c : M W A) s r s' :
  in_world (call ev c) s = (r, s') ->
  exists x, c (ext (the_world s)) = (r, x) /\
    s' = {| the_message := the_message s;
            the_world := {| ext := x; log := (log (the_world s) ++ [ev])%list |} |}.
Proof.
  unfold in_world, zoom, call. destruct (c (ext (the_world s))) as [r' x].
  intros [= <- <-]. eauto.
Qed.

(** A send that reaches the parsed status: what each collaborator returned,
    and the state then. *)
Lemma dispatch_and_parse_Return s payload response rs s1 :
  dispatch_and_parse signals self s = (Return (Some (payload, response, rs)), s1) ->
  exists sp st0 x2 x3 x4,
    run_pre_send signals self
      {| the_message := set_anymail_status (Some AnymailStatus_new) (the_message s);
         the_world := the_world s |} = (Return true, sp) /\
    is_empty (recipients (the_message sp)) = false /\
    anymail_status (the_message sp) = Some st0 /\
    build_message_payload self (the_message sp) (send_defaults self) (ext (the_world sp))
      = (Return payload, x2) /\
    post_to_esp self payload (the_message sp) x2 = (Return response, x3) /\
    parse_recipient_status self response payload
      (set_anymail_status (Some (set_esp_response response st0)) (the_message sp)) x3
      = (Return rs, x4) /\
    s1 = {| the_message :=
              set_anymail_status (Some (set_recipient_status rs (set_esp_response response st0)))
                                 (the_message sp);
            the_world :=
              {| ext := x4;
                 log := (send_log sp ++ [call_build_message_payload; call_post_to_esp;
                                         call_parse_recipient_status])%list |} |}.
Proof.
  unfold dispatch_and_parse. intros H.
  apply bind_Return_inv in H as (m0 & s01 & Hread & H).
  cbn in Hread. injection Hread as <- <-.
  apply bind_Return_inv in H as ([] & s02 & Hwrite & H).
  cbn in Hwrite. injection Hwrite as <-.
  apply bind_Return_inv in H as (proceed & sp & Hpre & H).
  destruct proceed; cbn [negb] in H; [| discriminate].
  apply bind_Return_inv in H as (m1 & s04 & Hread & H).
  cbn in Hread. injection Hread as <- <-.
  destruct (is_empty (recipients (the_message sp))) eqn:Hrecipients; [discriminate |].
  apply bind_Return_inv in H as (payload' & s05 & Hbuild & H).
  apply in_world_call_inv in Hbuild as (x2 & Hbuild & ->).
  apply bind_Return_inv in H as (m2 & s06 & Hread & H).
  cbn in Hread. injection Hread as <- <-.
  apply bind_Return_inv in H as (response' & s07 & Hpost & H).
  apply in_world_call_inv in Hpost as (x3 & Hpost & ->). cbn in Hpost.
  apply bind_Return_inv in H as ([] & s08 & Hresp & H).
  apply update_anymail_status_Return in Hresp as (st0 & Hst0 & ->). cbn in Hst0.
  apply bind_Return_inv in H as (m3 & s09 & Hread & H).
  cbn in Hread. injection Hread as <- <-.
  apply bind_Return_inv in H as (rs' & s10 & Hparse & H).
  apply in_world_call_inv in Hparse as (x4 & Hparse & ->). cbn in Hparse.
  apply bind_Return_inv in H as ([] & s11 & Hrs & H).
  apply update_anymail_status_Return in Hrs as (st1 & Hst1 & ->).
  cbn in Hst1. injection Hst1 as <-.
  cbn in H. injection H as -> -> -> <-.
  exists sp, st0, x2, x3, x4. repeat (split; [assumption |]).
  unfold send_log. cbn. now rewrite <- !app_assoc.
Qed.

(** A robust dispatch that returns responses none of which is an instance of
    [Exception]: every receiver was called and returned. *)
Lemma Signal_send_robust_quiet (receivers : list (@post_send_receiver W Response))
    i message st name w results w' :
  Signal_send_robust receivers i message st name w = (Return results, w') ->
  first_exception results = None ->
  exists os x,
    observed receivers message st name (ext w) = (os, x) /\
    forallb quiet os = true /\
    w' = {| ext := x;
            log := (log w ++ map call_post_send_receiver (seq i (length receivers)))%list |}.
Proof.
  revert i w results. induction receivers as [|receiver rest IH]; intros i w results; simpl.
  - intros [= <- <-] _. exists [], (ext w). cbn. rewrite app_nil_r. now destruct w.
  - unfold bind at 1, try_except, call.
    destruct (receiver message st name (ext w)) as [[r|e] x1] eqn:Hcall.
    + unfold bind at 1.
      destruct (Signal_send_robust rest (S i) message st name _) as [[responses|e'] w2]
        eqn:Hrest; [| discriminate].
      cbn. intros [= <- <-] Hnone.
      assert (Hr : quiet (Return r) = true /\ first_exception responses = None).
      { cbn in Hnone |- *. destruct r as [v|e]; [auto |].
        destruct (isinstance e "Exception"); [discriminate | auto]. }
      destruct Hr as [Hr Hnone'].
      destruct (IH _ _ _ Hrest Hnone') as (os & x & Hos & Hquiet & ->).
      cbn [ext log] in Hos.
      exists (Return r :: os), x. cbn [forallb]. rewrite Hos, Hr, Hquiet.
      repeat split. cbn. now rewrite <- app_assoc.
    + destruct (isinstance e "Exception") eqn:He; [| discriminate].
      unfold bind at 1. cbn.
      destruct (Signal_send_robust rest (S i) message st name _) as [[responses|e'] w2];
        [| discriminate].
      cbn. intros [= <- <-]. cbn. now rewrite He.
Qed.

(** X7.  When [_send] returns True, the send went through every stage once
    and in order.  The pre-send signal returned; the message it left has
    recipients; [build_message_payload] returned a payload for that message
    and the send defaults; [post_to_esp] returned a response for that
    payload; [parse_recipient_status] returned the statuses for that
    response, on the message that already carries the response; every
    post-send receiver was then called with the message and its final status,
    and returned something that is no instance of [Exception].  The message
    ends with that status: the provider's response and the parsed statuses;
    the world is as the last receiver left it, and the log has gained the
    pre-send receivers' calls, the three provider calls and the post-send
    receivers' calls, in this order.  Unless [ignore_recipient_status] is
    set, some recipient was not refused. *)
Theorem _send_True s s' :
  _send signals self s = (Return true, s') ->
  exists sp st0 name payload x2 response x3 rs x4 os x5,
    run_pre_send signals self
      {| the_message := set_anymail_status (Some AnymailStatus_new) (the_message s);
         the_world := the_world s |} = (Return true, sp) /\
    (exists evs, Forall by_pre_send_receiver evs /\
       send_log sp = (send_log s ++ evs)%list) /\
    is_empty (recipients (the_message sp)) = false /\
    anymail_status (the_message sp) = Some st0 /\
    declared_esp_name self = Some name /\
    build_message_payload self (the_message sp) (send_defaults self) (ext (the_world sp))
      = (Return payload, x2) /\
    post_to_esp self payload (the_message sp) x2 = (Return response, x3) /\
    parse_recipient_status self response payload
      (set_anymail_status (Some (set_esp_response response st0)) (the_message sp)) x3
      = (Return rs, x4) /\
    observed (post_send signals)
      (set_anymail_status (Some (set_recipient_status rs (set_esp_response response st0)))
                          (the_message sp))
      (set_recipient_status rs (set_esp_response response st0)) name x4 = (os, x5) /\
    forallb quiet os = true /\
    s' = {| the_message :=
              set_anymail_status (Some (set_recipient_status rs (set_esp_response response st0)))
                                 (the_message sp);
            the_world :=
              {| ext := x5;
                 log := (send_log sp
                         ++ [call_build_message_payload; call_post_to_esp;
                             call_parse_recipient_status]
                         ++ map call_post_send_receiver
                              (seq 0 (length (post_send signals))))%list |} |} /\
    (ignore_recipient_status self = false -> ~ all_refused rs).
Proof.
  intros Hsent. rewrite _send_stages in Hsent.
  apply bind_Return_inv in Hsent as ([[[payload response] rs]|] & s1 & Hparsed & Hfinal);
    [| discriminate].
  destruct (dispatch_and_parse_Some _ _ _ _ _ _ _ Hparsed) as [[name Hname] _].
  destruct (dispatch_and_parse_Return _ _ _ _ _ Hparsed)
    as (sp & st0 & x2 & x3 & x4 & Hpre & Hrecipients & Hst0 & Hbuild & Hpost & Hparse & ->).
  unfold finalize in Hfinal.
  apply bind_Return_inv in Hfinal as ([] & s2 & Hrun & Hfinal).
  match type of Hrun with
  | run_post_send _ _ ?s1 = _ =>
      rewrite (run_post_send_dispatch signals self s1 _ name eq_refl Hname) in Hrun
  end.
  unfold in_world, zoom in Hrun. cbn [the_message the_world] in Hrun.
  destruct (Signal_send_robust _ _ _ _ _ _) as [[results|e] w2] eqn:Hrobust; [| discriminate].
  destruct (first_exception results) eqn:Hnone; [discriminate |].
  injection Hrun as <-.
  destruct (Signal_send_robust_quiet _ _ _ _ _ _ _ _ Hrobust Hnone)
    as (os & x5 & Hos & Hquiet & ->). cbn [ext log] in Hos |- *.
  erewrite bind_Return in Hfinal by (apply read_anymail_status_of; reflexivity).
  erewrite bind_Return in Hfinal by reflexivity.
  apply bind_Return_inv in Hfinal as ([] & s3 & Hcheck & Hfinal).
  match type of Hcheck with
  | raise_for_recipient_status ?b ?st ?r ?p ?m ?x = _ =>
      pose proof (raise_for_recipient_status_state b st r p m x) as Hstate
  end.
  rewrite Hcheck in Hstate. cbn [snd] in Hstate. subst s3.
  cbn in Hfinal. injection Hfinal as <-.
  exists sp, st0, name, payload, x2, response, x3, rs, x4, os, x5.
  split; [exact Hpre |]. split.
  { destruct (appends_run_pre_send signals self by_pre_send_receiver
                (fun j => ex_intro _ j eq_refl)
                {| the_message := set_anymail_status (Some AnymailStatus_new) (the_message s);
                   the_world := the_world s |}) as (evs & Hlog & Hevs).
    rewrite Hpre in Hlog. exists evs. split; [exact Hevs | exact Hlog]. }
  repeat (split; [assumption |]).
  split; [now rewrite <- app_assoc |].
  intros Hstrict Hall. unfold raise_for_recipient_status in Hcheck.
  rewrite Hstrict in Hcheck. cbn in Hcheck.
  rewrite bool_decide_eq_true_2 in Hcheck by now apply all_refused_subset.
  discriminate.
Qed.

(** X5.  The base class by itself cannot send.  [__init__] reads
    [self.esp_name] to look up the provider's send defaults, so a class that
    declares no [esp_name] cannot even be constructed: NotImplementedError.
    A class that adds nothing but an [esp_name] is constructed, with the
    provider's send defaults laid over the general ones, key by key; its
    [send_messages], on a batch whose first message has recipients and with
    no pre-send receiver registered, raises NotImplementedError, also in
    fail-silent mode, because that error is no AnymailError: it has called
    [open()], which opens nothing, then the missing [build_message_payload],
    and never [close()]. *)
Theorem base_backend_cannot_send (args : BackendArguments) :
  (of_esp_name args = None ->
     @AnymailBaseBackend W Payload Response args
       = Raise (NotImplementedError
                  (of_module args ++ "." ++ of_name args
                   ++ " must declare esp_name class attr"))) /\
  (forall name, of_esp_name args = Some name ->
     exists base : @Backend W Payload Response,
       AnymailBaseBackend args = Return base /\
       declared_esp_name base = Some name /\
       fail_silently base = kw_fail_silently args /\
       (forall key,
          send_defaults base !! key =
          match found_esp_send_defaults args name with
          | Some esp_send_defaults =>
              match esp_send_defaults !! key with
              | Some value => Some value
              | None => found_send_defaults args !! key
              end
          | None => found_send_defaults args !! key
          end) /\
       forall message rest (b : @batch_state W Response),
         pre_send signals = [] ->
         is_empty (recipients message) = false ->
         send_messages signals base (message :: rest) b
           = (Raise (NotImplementedError
                       (of_module args ++ "." ++ of_name args
                        ++ " must implement build_message_payload")),
              {| processed :=
                   processed b ++ [set_anymail_status (Some AnymailStatus_new) message];
                 batch_world :=
                   {| ext := ext (batch_world b);
                      log := (batch_log b
                              ++ [call_open; call_build_message_payload])%list |} |})).
Proof.
  split.
  - intros Hnone. unfold AnymailBaseBackend, AnymailBaseBackend_init. now rewrite Hnone.
  - intros name Hname. unfold AnymailBaseBackend, AnymailBaseBackend_init. rewrite Hname.
    eexists. split; [reflexivity |]. split; [reflexivity |]. split; [reflexivity |]. split.
    + intros key. cbn. unfold merge_send_defaults.
      destruct (found_esp_send_defaults args name) as [esp|]; [| reflexivity].
      rewrite lookup_union. destruct (esp !! key), (found_send_defaults args !! key);
        reflexivity.
    + intros message rest b Hnobody Hrecipients. unfold send_messages. cbn [is_empty].
      unfold bind at 1. cbn. unfold try_finally, bind, try_except, send_message.
      rewrite _send_begins. unfold bind at 1, run_pre_send, try_except, bind at 1, esp_name.
      cbn -[recipients]. rewrite Hnobody. cbn -[recipients].
      change (recipients (set_anymail_status (Some AnymailStatus_new) message))
        with (recipients message).
      rewrite Hrecipients. cbn.
      unfold batch_log. now rewrite <- app_assoc.
Qed.

End SendTrace.

(** * Further properties of the payload *)

Section PayloadMoreFacts.

Context {Response PData : Type}.
Variable env : Environment.
Variable cls : @PayloadClass Response PData.

Implicit Types p : @BasePayload Response PData.
Implicit Types s : @construction Response PData.

(** *** The order of the setter calls *)

Lemma in_self_calls {A} (c : M BasePayload A) s :
  setter_calls (snd (in_self c s)) = setter_calls s.
Proof. unfold in_self, zoom. now destruct (c (self s)). Qed.

Lemma setter_for_named r p name setter p' :
  setter_for env cls r p = (Return (name, setter), p') -> setter_named r name.
Proof.
  unfold setter_for, setter_named, bind, get, getattr_method.
  destruct (String.eqb (attr r) "body").
  - destruct (String.eqb _ "html"); intros [= <- _ _]; auto.
  - destruct (assoc _ _); [now intros [= <- _ _] |].
    destruct (defines cls _); [now intros [= <- _ _] | discriminate].
Qed.

Lemma deliver_calls r value s :
  exists calls,
    setter_calls (snd (deliver env cls r value s)) = (setter_calls s ++ calls)%list /\
    (calls = [] \/
     exists name value', calls = [(name, value')] /\ setter_named r name /\ value' <> UNSET).
Proof.
  unfold deliver, bind.
  pose proof (in_self_calls (converted_value env cls r value) s) as Hconv.
  destruct (in_self (converted_value env cls r value) s) as [[value'|e] s1]; cbn in Hconv.
  - destruct (is_not_UNSET value') eqn:Hpresent.
    + pose proof (in_self_calls (setter_for env cls r) s1) as Hfor.
      destruct (in_self (setter_for env cls r) s1) as [[[name setter]|e] s2] eqn:Hsetter;
        cbn in Hfor.
      * rewrite call_setter_spec. cbn [fst snd]. exists [(name, value')].
        split.
        -- destruct (setter [value'] (self s2)) as [[v|e] p]; cbn; now rewrite Hfor, Hconv.
        -- right. exists name, value'. split; [reflexivity |]. split.
           ++ unfold in_self, zoom in Hsetter.
              destruct (setter_for env cls r (self s1)) as [[named|e] p'] eqn:Hnamed;
                [| discriminate].
              injection Hsetter as -> _. eapply setter_for_named; eassumption.
           ++ now destruct value'.
      * exists []. cbn. rewrite Hfor, Hconv, app_nil_r. auto.
    + exists []. cbn. rewrite Hconv, app_nil_r. auto.
  - exists []. cbn. rewrite Hconv, app_nil_r. auto.
Qed.

Lemma process_attr_calls r s :
  exists calls,
    setter_calls (snd (process_attr env cls r s)) = (setter_calls s ++ calls)%list /\
    (calls = [] \/
     exists name value', calls = [(name, value')] /\ setter_named r name /\ value' <> UNSET).
Proof.
  unfold process_attr, bind.
  pose proof (in_self_calls (combined_value r) s) as Hcombined.
  destruct (in_self (combined_value r) s) as [[value|e] s1]; cbn in Hcombined.
  - destruct (deliver_calls r value s1) as (calls & Hcalls & Hshape).
    exists calls. now rewrite Hcalls, Hcombined.
  - exists []. cbn. rewrite Hcombined, app_nil_r. auto.
Qed.

Lemma for_each_process_attr_calls rules s :
  exists used calls,
    sublist used rules /\
    setter_calls (snd (for_each rules (process_attr env cls) s))
      = (setter_calls s ++ calls)%list /\
    Forall2 (fun call r => setter_named r (fst call) /\ snd call <> UNSET) calls used.
Proof.
  revert s. induction rules as [|r rules IH]; intros s; simpl.
  - exists [], []. rewrite app_nil_r. repeat split; constructor.
  - unfold bind.
    destruct (process_attr_calls r s) as (calls1 & Hcalls1 & Hshape).
    destruct (process_attr env cls r s) as [[[]|e] s1]; cbn in Hcalls1.
    + destruct (IH s1) as (used & calls & Hsub & Hcalls & Hall).
      destruct Hshape as [-> | (name & value' & -> & Hname & Hvalue)].
      * exists used, calls. split; [now constructor |].
        rewrite Hcalls, Hcalls1, app_nil_r. auto.
      * exists (r :: used), ((name, value') :: calls). split; [now constructor |].
        rewrite Hcalls, Hcalls1, <- app_assoc. split; [reflexivity |].
        constructor; auto.
    + destruct Hshape as [-> | (name & value' & -> & Hname & Hvalue)].
      * exists [], []. split; [apply sublist_nil_l |]. cbn.
        rewrite Hcalls1. split; [reflexivity | constructor].
      * exists [r], [(name, value')]. split; [constructor; apply sublist_nil_l |].
        cbn. split; [assumption |]. repeat constructor; auto.
Qed.

(** X9.  [__init__] calls the setters in the order of the attribute tables,
    each attribute's setter at most once, and never with [UNSET]: whether it
    returns or raises, the setters it has called are those of a subsequence
    of [message_attrs], in that order ([set_html_body] or [set_text_body] for
    the body). *)
Theorem BasePayload_init_setter_order s :
  exists used calls,
    sublist used (message_attrs env cls) /\
    setter_calls (snd (BasePayload_init env cls s)) = (setter_calls s ++ calls)%list /\
    Forall2 (fun call r => setter_named r (fst call) /\ snd call <> UNSET) calls used.
Proof.
  unfold BasePayload_init, bind at 1, get.
  destruct (declared_esp_name (backend (self s))) as [esp_name|].
  - unfold bind.
    pose proof (in_self_calls (assign_esp_name esp_name) s) as Hassign.
    destruct (in_self (assign_esp_name esp_name) s) as [[[]|e] s1]; cbn in Hassign.
    + pose proof (in_self_calls (init_payload cls []) s1) as Hinit.
      destruct (in_self (init_payload cls []) s1) as [[v|e] s2]; cbn in Hinit.
      * destruct (for_each_process_attr_calls (message_attrs env cls) s2)
          as (used & calls & Hsub & Hcalls & Hall).
        exists used, calls. now rewrite Hcalls, Hinit, Hassign.
      * exists [], []. cbn. rewrite Hinit, Hassign, app_nil_r.
        repeat split; [apply sublist_nil_l | constructor].
    + exists [], []. cbn. rewrite Hassign, app_nil_r.
      repeat split; [apply sublist_nil_l | constructor].
  - exists [], []. cbn. rewrite app_nil_r.
    repeat split; [apply sublist_nil_l | constructor].
Qed.

(** X10.  The setter of an attribute is looked up only when there is a value
    to pass: for an attribute of which neither the base class nor the
    provider's class has a [set_<attr>], the loop body does nothing when the
    combined value is [UNSET], and raises AttributeError, having called no
    setter, when a value remains after conversion. *)
Theorem process_attr_missing_setter r s value :
  String.eqb (attr r) "body" = false ->
  assoc ("set_" ++ attr r) (BasePayload_methods env cls) = None ->
  defines cls ("set_" ++ attr r) = None ->
  combined_value r (self s) = (Return value, self s) ->
  (value = UNSET -> process_attr env cls r s = (Return tt, s)) /\
  (forall value' p1,
     converted_value env cls r value (self s) = (Return value', p1) ->
     value' <> UNSET ->
     process_attr env cls r s
       = (Raise (AttributeError ("set_" ++ attr r)),
          {| self := p1; setter_calls := setter_calls s |})).
Proof.
  intros Hbody Hbase Hcls Hcombined.
  rewrite (process_attr_combined env cls r s value Hcombined). split.
  - intros ->. apply deliver_UNSET.
  - intros value' p1 Hconverted Hpresent. unfold deliver.
    erewrite bind_Return by (apply in_self_Return; eassumption).
    replace (is_not_UNSET value') with true by now destruct value'.
    apply bind_Raise. unfold in_self, zoom, setter_for, bind, get, getattr_method.
    rewrite Hbody, Hbase, Hcls. reflexivity.
Qed.

End PayloadMoreFacts.

Section PayloadDefaults.

Context {Response PData : Type}.
Variable env : Environment.
Variable cls : @PayloadClass Response PData.

Implicit Types p : @BasePayload Response PData.

(** *** Recipients *)

Lemma set_recipients_fans_out recipient_type emails p :
  defines cls "set_recipients" = None ->
  set_recipients cls [recipient_type; PyList emails] p =
  bind (for_each emails (fun email => add_recipient cls [recipient_type; email] ;;; ret tt))
       (fun _ => ret PyNone) p.
Proof. intros H. unfold set_recipients, resolve. now rewrite H. Qed.

(** X11.  In a provider class that defines none of [set_to], [set_cc],
    [set_bcc] and [set_recipients], each of the three setters calls
    [add_recipient] once per address, in order, with its recipient type, and
    stops at the first call that raises.  An empty list calls nothing, so it
    is accepted even by a class without [add_recipient]; a list that is not
    empty then raises NotImplementedError. *)
Theorem recipient_setters_fan_out emails p :
  defines cls "set_to" = None ->
  defines cls "set_cc" = None ->
  defines cls "set_bcc" = None ->
  defines cls "set_recipients" = None ->
  let each recipient_type :=
    bind (for_each emails
            (fun email => add_recipient cls [PyStr recipient_type; email] ;;; ret tt))
         (fun _ => ret PyNone) p in
  set_to cls [PyList emails] p = each "to" /\
  set_cc cls [PyList emails] p = each "cc" /\
  set_bcc cls [PyList emails] p = each "bcc" /\
  (emails = [] -> set_to cls [PyList emails] p = (Return PyNone, p)) /\
  (defines cls "add_recipient" = None -> emails <> [] ->
     set_to cls [PyList emails] p
       = (Raise (NotImplementedError
                   (payload_module cls ++ "." ++ payload_name cls
                    ++ " must implement add_recipient, set_recipients, or set_{to,cc,bcc}")),
          p)).
Proof.
  intros Hto Hcc Hbcc Hrecipients each.
  assert (Hset_to : set_to cls [PyList emails] p = each "to").
  { unfold set_to, resolve. rewrite Hto. now apply set_recipients_fans_out. }
  split; [assumption |]. split; [| split; [| split]].
  - unfold set_cc, resolve. rewrite Hcc. now apply set_recipients_fans_out.
  - unfold set_bcc, resolve. rewrite Hbcc. now apply set_recipients_fans_out.
  - intros ->. now rewrite Hset_to.
  - intros Hadd Hsome. rewrite Hset_to. subst each.
    destruct emails as [|email rest]; [contradiction |].
    cbn. unfold bind, add_recipient, resolve. now rewrite Hadd.
Qed.

(** *** Alternative parts *)






(** *** The timestamp converter *)


End PayloadDefaults.

Section PayloadReadOnly.

Context {Response PData : Type}.
Variable env : Environment.
Variable cls : @PayloadClass Response PData.

Implicit Types p : @BasePayload Response PData.

Lemma comprehension_read_only f v p :
  snd (@comprehension Response PData f v p) = p.
Proof.
  unfold comprehension. destruct (iter v) as [l|]; [| reflexivity].
  now destruct (map_outcome f l).
Qed.

Lemma unsupported_feature_read_only feature p :
  snd (unsupported_feature feature p) = p.
Proof.
  rewrite unsupported_feature_spec.
  destruct (ignore_unsupported_features (backend p)); [reflexivity |].
  now destruct (payload_esp_name p).
Qed.

(** X15.  The converters of the base class and its setters for unsupported
    features only read the payload: whatever the arguments, and whether they
    return or raise, the payload object is afterwards as it was.  (Of a
    provider class that defines the method itself nothing is said.) *)
Theorem base_methods_read_only name (m : @method Response PData) p0 :
  In name read_only_methods ->
  defines cls name = None ->
  getattr_method env cls name p0 = (Return m, p0) ->
  forall args p, snd (m args p) = p.
Proof.
  intros Hin Hdef Hget args p.
  unfold read_only_methods, unsupported_by_default in Hin. cbn [In map app] in Hin.
  repeat (destruct Hin as [<- | Hin];
    [ cbv beta iota delta [String.append] in Hdef, Hget;
      unfold getattr_method in Hget;
      cbn [assoc BasePayload_methods String.eqb Ascii.eqb Bool.eqb] in Hget;
      injection Hget as <-;
      unfold parsed_email, parsed_emails, prepped_alternatives, prepped_attachments,
        aware_datetime, set_reply_to, set_extra_headers, set_metadata, set_send_at,
        set_tags, set_track_clicks, set_track_opens, set_template_id, set_merge_data,
        set_merge_global_data, set_esp_extra, resolve, unary;
      rewrite Hdef;
      destruct args as [|a [|a' args]]; try reflexivity;
      unfold bind, get, lift;
      first [ reflexivity
            | apply comprehension_read_only
            | apply unsupported_feature_read_only ]
    | ]).
  destruct Hin.
Qed.

End PayloadReadOnly.

(** ** The further properties on runs of the small provider *)

Section MoreRuns.

Import Provider Scenario.

(** X1, on a batch of three messages in fail-silent mode: the first is sent,
    the second has tags, which the provider does not support, and the third
    has no recipients. *)
Lemma send_messages_count_witness :
  exists created x,
    open silent (ext (batch_world (batch offline))) = (Return created, x) /\
    let runs :=
      send_each no_receivers silent [to_a_b; tagged; to_nobody]
        {| ext := x; log := (batch_log (batch offline) ++ [call_open])%list |} in
    1%nat = length (List.filter reported_sent runs) /\
    (1 <= length [to_a_b; tagged; to_nobody])%nat /\
    length runs = length [to_a_b; tagged; to_nobody] /\
    processed (snd (send_messages no_receivers silent [to_a_b; tagged; to_nobody]
                      (batch offline)))
      = (processed (batch offline) ++ map (fun run => the_message (snd run)) runs)%list /\
    Forall (fun run => forall e, fst run = Raise e ->
              isinstance e "AnymailError" = true /\ fail_silently silent = true) runs.
Proof.
  apply (send_messages_count no_receivers silent [to_a_b; tagged; to_nobody] (batch offline)
           1%nat
           (snd (send_messages no_receivers silent [to_a_b; tagged; to_nobody]
                   (batch offline)))).
  computed.
Defined.

(** X2, on a batch in fail-silent mode whose second message needs the
    provider's missing [add_attachment]. *)
Lemma send_messages_silent_witness :
  let e := NotImplementedError
             "provider.backend.ProviderPayload must implement add_attachment or set_attachments" in
  isinstance e "AnymailError" = false \/
  fst (open silent (ext (batch_world (batch offline)))) = Raise e \/
  exists x, fst (close silent x) = Raise e.
Proof.
  apply (send_messages_silent no_receivers silent [to_a_b; with_attachment] (batch offline) _
           (snd (send_messages no_receivers silent [to_a_b; with_attachment]
                   (batch offline)))); computed.
Defined.

(** X3, on a batch whose second message has tags the provider does not
    support, with fail-silent mode off: the third message is never sent. *)
Lemma send_messages_aborts_on_error_witness :
  let b_open := snd (in_batch_world (call call_open (open strict)) (batch offline)) in
  let b0 := snd (for_message_in no_receivers strict [to_a_b] 0 b_open) in
  let b1 := snd (send_message no_receivers strict tagged b0) in
  let run := send_messages no_receivers strict ([to_a_b] ++ tagged :: [to_c])
               (batch offline) in
  (exists e', fst run = Raise e') /\
  processed (snd run) = processed b1 /\
  batch_log (snd run) = (batch_log b1 ++ [call_close])%list /\
  (true = false -> run = (Raise (AnymailUnsupportedFeature "Provider does not support tags"),
                          b1)).
Proof.
  intros b_open b0 b1.
  apply (send_messages_aborts_on_error no_receivers strict [to_a_b] tagged [to_c]
           (batch offline) b_open b0 b1 true 1%nat
           (AnymailUnsupportedFeature "Provider does not support tags") eq_refl);
    computed.
Defined.

(** X4, on a pre-send receiver that cancels and on one that fails. *)
Lemma _send_pre_send_exception_witness :
  _send cancelling strict (sending to_a_b)
    = (Return false, waiting to_a_b (called online [call_pre_send_receiver 0])) /\
  _send vetoing strict (sending to_a_b)
    = (Raise observer_error, waiting to_a_b (called online [call_pre_send_receiver 0])).
Proof.
  split.
  - refine (proj1 (_send_pre_send_exception cancelling strict to_a_b online "Provider"
                     cancel (waiting to_a_b (called online [call_pre_send_receiver 0]))
                     eq_refl _)); computed.
  - refine (proj1 (_send_pre_send_exception vetoing strict to_a_b online "Provider"
                     observer_error
                     (waiting to_a_b (called online [call_pre_send_receiver 0]))
                     eq_refl _)); computed.
Defined.

(** X5, on the base class and on a subclass that only declares its name,
    with fail-silent mode on. *)
Lemma base_backend_cannot_send_witness :
  @AnymailBaseBackend account Payload response bare_arguments
    = Raise (NotImplementedError
               "anymail.backends.base.AnymailBaseBackend must declare esp_name class attr") /\
  exists base : @Backend account Payload response,
    AnymailBaseBackend named_arguments = Return base /\
    fail_silently base = true /\
    send_defaults base !! "tags" = Some tag_y /\
    send_defaults base !! "track_opens" = Some (PyBool true) /\
    fst (send_messages no_receivers base [to_a_b] (batch offline))
      = Raise (NotImplementedError "bare.backend.BareBackend must implement build_message_payload").
Proof.
  split.
  - exact (proj1 (base_backend_cannot_send (Payload := Payload) no_receivers bare_arguments)
             eq_refl).
  - destruct (proj2 (base_backend_cannot_send (Payload := Payload) no_receivers
                       named_arguments) "Bare" eq_refl)
      as (base & Hbase & _ & Hsilent & Hdefaults & Hsend).
    exists base. split; [exact Hbase |]. split; [exact Hsilent |].
    split; [rewrite Hdefaults; computed |]. split; [rewrite Hdefaults; computed |].
    rewrite (Hsend to_a_b [] (batch offline) eq_refl ltac:(computed)).
    reflexivity.
Defined.

(** X6, on a message to two addresses of which the provider rejects one,
    with a post-send receiver that returns. *)
Lemma _send_partly_refused_witness :
  _send watching strict (sending to_a_c)
    = (Return true,
       after to_a_c (verdicts a_sent_c_rejected) a_sent_c_rejected
         (dispatched ++ [call_post_send_receiver 0])).
Proof.
  rewrite (_send_partly_refused watching strict (sending to_a_c)
             (built (config false false false) to_a_c) a_sent_c_rejected
             (verdicts a_sent_c_rejected)
             (after to_a_c (verdicts a_sent_c_rejected) a_sent_c_rejected dispatched)
             (parsed (verdicts a_sent_c_rejected) a_sent_c_rejected) "Provider"
             [Return (inl PyNone)]
             (ext (the_world (after to_a_c (verdicts a_sent_c_rejected) a_sent_c_rejected
                                dispatched)))
             ltac:(computed) eq_refl eq_refl eq_refl eq_refl).
  - computed.
  - right. exists "a@example.com", {| message_id := PyNone; status := "sent" |}.
    split; [computed | split; discriminate].
Defined.

(** X7, on a message to two addresses of which the provider rejects one. *)
Lemma _send_True_witness :
  exists sp st0 name payload x2 answer x3 rs x4 os x5,
    run_pre_send no_receivers strict
      {| the_message := set_anymail_status (Some AnymailStatus_new) (the_message (sending to_a_c));
         the_world := the_world (sending to_a_c) |} = (Return true, sp) /\
    (exists evs, Forall by_pre_send_receiver evs /\
       send_log sp = (send_log (sending to_a_c) ++ evs)%list) /\
    is_empty (recipients (the_message sp)) = false /\
    anymail_status (the_message sp) = Some st0 /\
    declared_esp_name strict = Some name /\
    build_message_payload strict (the_message sp) (send_defaults strict) (ext (the_world sp))
      = (Return payload, x2) /\
    post_to_esp strict payload (the_message sp) x2 = (Return answer, x3) /\
    parse_recipient_status strict answer payload
      (set_anymail_status (Some (set_esp_response answer st0)) (the_message sp)) x3
      = (Return rs, x4) /\
    observed (post_send no_receivers)
      (set_anymail_status (Some (set_recipient_status rs (set_esp_response answer st0)))
                          (the_message sp))
      (set_recipient_status rs (set_esp_response answer st0)) name x4 = (os, x5) /\
    forallb quiet os = true /\
    after to_a_c (verdicts a_sent_c_rejected) a_sent_c_rejected dispatched
      = {| the_message :=
             set_anymail_status (Some (set_recipient_status rs (set_esp_response answer st0)))
                                (the_message sp);
           the_world :=
             {| ext := x5;
                log := (send_log sp
                        ++ [call_build_message_payload; call_post_to_esp;
                            call_parse_recipient_status]
                        ++ map call_post_send_receiver
                             (seq 0 (length (post_send no_receivers))))%list |} |} /\
    (ignore_recipient_status strict = false -> ~ all_refused rs).
Proof.
  apply (_send_True no_receivers strict (sending to_a_c)
           (after to_a_c (verdicts a_sent_c_rejected) a_sent_c_rejected dispatched)).
  computed.
Defined.

(** X8, on a message posted while the provider's connection is down. *)
Lemma _send_dispatch_failure_witness :
  _send no_receivers strict {| the_message := to_a_b; the_world := offline |}
    = (Raise (AnymailAPIError "not connected"),
       waiting to_a_b (called offline [call_build_message_payload; call_post_to_esp])).
Proof.
  apply (_send_dispatch_failure no_receivers strict to_a_b offline (waiting to_a_b offline)
           (Return (built (config false false false) to_a_b)) (ext offline));
    computed.
Defined.

End MoreRuns.

Section MorePayloadRuns.

Import Provider Scenario.

(** X10, on an attribute the provider has no setter for. *)
Lemma process_attr_missing_setter_witness :
  process_attr env payload_class campaign_rule (constructing [] [])
    = (Return tt, constructing [] []) /\
  process_attr env payload_class campaign_rule
      (constructing [("campaign_id", PyStr "spring")] [])
    = (Raise (AttributeError "set_campaign_id"),
       constructing [("campaign_id", PyStr "spring")] []).
Proof.
  split.
  - refine (proj1 (process_attr_missing_setter env payload_class campaign_rule
                     (constructing [] []) UNSET eq_refl eq_refl eq_refl _) eq_refl).
    computed.
  - refine (proj2 (process_attr_missing_setter env payload_class campaign_rule
                     (constructing [("campaign_id", PyStr "spring")] [])
                     (PyStr "spring") eq_refl eq_refl eq_refl _)
              (PyStr "spring")
              (self (constructing [("campaign_id", PyStr "spring")] [])) _ _);
      first [computed | discriminate].
Defined.

(** X11, on a provider class that defines nothing. *)
Lemma recipient_setters_fan_out_witness :
  set_to bare_class [PyList []] (self (constructing [] []))
    = (Return PyNone, self (constructing [] [])) /\
  set_to bare_class [PyList [PyStr "a@example.com"]] (self (constructing [] []))
    = (Raise (NotImplementedError
                "bare.backend.BarePayload must implement add_recipient, set_recipients, or set_{to,cc,bcc}"),
       self (constructing [] [])).
Proof.
  split.
  - exact (proj1 (proj2 (proj2 (proj2
             (recipient_setters_fan_out bare_class [] (self (constructing [] []))
                eq_refl eq_refl eq_refl eq_refl)))) eq_refl).
  - refine (proj2 (proj2 (proj2 (proj2
              (recipient_setters_fan_out bare_class [PyStr "a@example.com"]
                 (self (constructing [] [])) eq_refl eq_refl eq_refl eq_refl)))) eq_refl _).
    discriminate.
Defined.



(** X15, on the provider's inherited [set_tags]. *)
Lemma base_methods_read_only_witness :
  snd (set_tags payload_class [tag_x] (self (constructing [] [])))
    = self (constructing [] []).
Proof.
  apply (base_methods_read_only env payload_class "set_tags" (set_tags payload_class)
           (self (constructing [] []))).
  - unfold read_only_methods, unsupported_by_default. cbn [In map app].
    do 9 right. left. reflexivity.
  - reflexivity.
  - reflexivity.
Defined.

End MorePayloadRuns.

(** * Further properties: statuses and addresses *)

Section StatusFacts.

Context {W Payload Response : Type}.
Variable signals : @Signals W Response.
Variable self : @Backend W Payload Response.

Implicit Types s : @send_state W Response.

(** X16.  Once the provider's response is parsed, the status stays on the
    message whatever happens next: whether a post-send receiver raises, or
    all recipients are refused, or [_send] returns True, the message that
    [_send] leaves carries the provider's response, the per-recipient entries
    and the set of their statuses. *)
Theorem _send_keeps_parsed_status s payload response rs s1 :
  dispatch_and_parse signals self s = (Return (Some (payload, response, rs)), s1) ->
  exists st,
    anymail_status (the_message (snd (_send signals self s))) = Some st /\
    esp_response st = Some response /\
    recipients_status st = rs /\
    statuses st = Some (list_to_set (status <$> (map_to_list rs).*2)).
Proof.
  intros Hparsed.
  destruct (dispatch_and_parse_Some _ _ _ _ _ _ _ Hparsed) as [[name Hname] [st0 Hst]].
  exists (set_recipient_status rs (set_esp_response response st0)).
  split; [| cbn; auto].
  rewrite (_send_finalize _ _ _ _ _ _ _ Hparsed). unfold finalize.
  pose proof (run_post_send_keeps_message signals self s1) as Hkeep.
  unfold bind at 1.
  destruct (run_post_send signals self s1) as [[[]|e] s2]; cbn in Hkeep;
    [| cbn; now rewrite Hkeep].
  rewrite <- Hkeep in Hst.
  erewrite bind_Return by (apply read_anymail_status_of; eassumption).
  erewrite bind_Return by reflexivity.
  unfold bind.
  pose proof (raise_for_recipient_status_state self
                (set_recipient_status rs (set_esp_response response st0))
                response payload (the_message s2) s2) as Hstate.
  destruct (raise_for_recipient_status _ _ _ _ _ _) as [[[]|e] s3]; cbn in Hstate;
    subst s3; exact Hst.
Qed.

End StatusFacts.

Section AddressFacts.

Context {Response PData : Type}.
Variable env : Environment.
Variable cls : @PayloadClass Response PData.

Implicit Types p : @BasePayload Response PData.

Lemma map_outcome_Return f l ys :
  map_outcome f l = Return ys <-> Forall2 (fun x y => f x = Return y) l ys.
Proof.
  revert ys. induction l as [|x l IH]; intros ys; simpl.
  - split; [intros [= <-]; constructor | now inversion 1].
  - destruct (f x) as [y|e] eqn:Hx.
    + destruct (map_outcome f l) as [ys'|e].
      * split.
        -- intros [= <-]. constructor; [assumption | now apply IH].
        -- inversion 1 as [|? y' ? ys'' Hy Hrest]; subst.
           rewrite Hx in Hy. injection Hy as <-.
           apply IH in Hrest. now injection Hrest as <-.
      * split; [discriminate |].
        inversion 1 as [|? y' ? ys'' Hy Hrest]; subst. apply IH in Hrest. discriminate.
    + split; [discriminate |].
      inversion 1 as [|? y' ? ys'' Hy Hrest]; subst. rewrite Hx in Hy. discriminate.
Qed.

Lemma map_outcome_Raise f l e :
  map_outcome f l = Raise e ->
  exists good bad rest,
    l = (good ++ bad :: rest)%list /\ f bad = Raise e /\
    Forall (fun x => exists y, f x = Return y) good.
Proof.
  induction l as [|x l IH]; simpl; [discriminate |].
  destruct (f x) as [y|e0] eqn:Hx.
  - destruct (map_outcome f l) as [ys|e1]; [discriminate |].
    intros [= <-]. destruct (IH eq_refl) as (good & bad & rest & -> & Hbad & Hgood).
    exists (x :: good), bad, rest. repeat split; [assumption |]. constructor; eauto.
  - intros [= <-]. exists [], x, l. repeat split; [assumption | constructor].
Qed.

(** X14.  The address lists ([to], [cc], [bcc], [reply_to]) are converted
    address by address, with the message's encoding: [parsed_emails] returns
    the list of the converted addresses, as many and in the same order, when
    every address converts; and when it raises, the error is that of the
    first address that does not convert.  The payload is not touched. *)
Theorem parsed_emails_elementwise addresses p :
  defines cls "parsed_emails" = None ->
  (forall ys,
     parsed_emails env cls [PyList addresses] p = (Return (PyList ys), p) <->
     Forall2 (fun address y => ParsedEmail env address (encoding (message p)) = Return y)
             addresses ys) /\
  (forall e p',
     parsed_emails env cls [PyList addresses] p = (Raise e, p') ->
     p' = p /\
     exists good bad rest,
       addresses = (good ++ bad :: rest)%list /\
       ParsedEmail env bad (encoding (message p)) = Raise e /\
       Forall (fun address =>
                 exists y, ParsedEmail env address (encoding (message p)) = Return y)
              good).
Proof.
  intros Hdef.
  assert (Hrun : parsed_emails env cls [PyList addresses] p =
    match map_outcome (fun address => ParsedEmail env address (encoding (message p)))
            addresses with
    | Return ys => (Return (PyList ys), p)
    | Raise e => (Raise e, p)
    end).
  { unfold parsed_emails, resolve. rewrite Hdef. cbn.
    now destruct (map_outcome _ addresses). }
  rewrite Hrun. split.
  - intros ys. rewrite <- map_outcome_Return.
    destruct (map_outcome _ addresses) as [ys'|e]; split; try discriminate.
    + now intros [= <-].
    + now intros [= <-].
  - intros e p'. destruct (map_outcome _ addresses) as [ys'|e'] eqn:Hmap; [discriminate |].
    intros [= <- <-]. split; [reflexivity |]. now apply map_outcome_Raise.
Qed.

End AddressFacts.

Section StatusRuns.

Import Provider Scenario.

(** X16, on the message to the rejected address with a failing post-send
    receiver: the send raises, and the message carries the status. *)
Lemma _send_keeps_parsed_status_witness :
  exists st,
    anymail_status (the_message (snd (_send failing_observer strict (sending to_c))))
      = Some st /\
    esp_response st = Some c_rejected /\
    recipients_status st = verdicts c_rejected /\
    statuses st = Some (list_to_set (status <$> (map_to_list (verdicts c_rejected)).*2)).
Proof.
  apply (_send_keeps_parsed_status failing_observer strict (sending to_c)
           (built (config false false false) to_c) c_rejected (verdicts c_rejected)
           (after to_c (verdicts c_rejected) c_rejected dispatched)).
  computed.
Defined.

(** X14, on two addresses of which one is a lazy string. *)
Lemma parsed_emails_elementwise_witness :
  parsed_emails env payload_class [PyList [PyStr "a@example.com"; PyLazy "b@example.com"]]
      (self (constructing [] []))
    = (Return (PyList [PyStr "a@example.com"; PyStr "b@example.com"]),
       self (constructing [] [])).
Proof.
  apply (proj1 (parsed_emails_elementwise env payload_class
                  [PyStr "a@example.com"; PyLazy "b@example.com"]
                  (self (constructing [] [])) eq_refl)).
  repeat constructor.
Defined.

End StatusRuns.
